(** * Tic-Tac-Toe game engine of [main.ts]: model and verification

    The development embeds the two classes of [src/main.ts]:
    [DOMDisplay] (board, win check, computer opponent, score board) and
    [TicTacToe] (turn order, rounds, scores), together with the browser
    event loop that drives them (click listeners and [setTimeout]
    callbacks).

    Modelling conventions.
    - The document is part of the state: the [.tile] elements in document
      order, the [data-difficulty] value of the button that carries the
      class [difficulty__btn--click], and what has been written to the
      score board (kept as a list of outputs, oldest first).
    - A tile element handed to a click handler is named by its position in
      the [.tile] node list.
    - JavaScript numbers hold small integers here (scores, rounds, tile
      indices); they are modelled by [Z].
    - [setTimeout] callbacks are kept in a list of pending timers; the event
      loop may fire any pending one, which covers every firing order. *)

From stdpp Require Import base list list_numbers numbers strings.

(** ** Data model *)

(** [interface Score { x: number; o: number }] *)
Module Score.
Record t := mk { x : Z; o : Z }.
End Score.

(** [interface PlayerMarker { x: string; o: string }] *)
Module PlayerMarker.
Record t := mk { x : string; o : string }.
End PlayerMarker.

(** A [.tile] element: its [data-tile-index] attribute and its
    [dataset.owned] entry.  [createTiles] is the only writer of
    [data-tile-index] and writes the number [i + 1]; [tileIndex] keeps the
    numeric value [+tileIndex], [None] standing for a missing attribute. *)
Record Tile := mkTile { tileIndex : option Z; owned : option string }.

(** The three messages [printGameOutcome] can write. *)
Inductive Outcome := GameTied | GameWonByPlayer | GameWonByComputer.

(** What the display writes to the score board. *)
Inductive Output :=
| RoundWinnerMessage (round : Z) (currentPlayer : string)
    (* printWinnerMessage: `Round ${round} won by ${currentPlayer}` *)
| ScoreUpdated (currentPlayer : string) (points : Z) (roundShown : Z)
    (* updateScore *)
| GameOutcome (result : Outcome)
    (* printGameOutcome *)
| MessageCleared.
    (* clearMessage *)

(** The three callbacks the program passes to [setTimeout]. *)
Inductive Timer :=
| HideBoard   (* printWinnerMessage, 1000 ms: destroyTiles *)
| ResetMatch  (* clickTile, last round, 2000 ms: resetGame *)
| NextRound.  (* clickTile, earlier round, 2000 ms: next round *)

(** The whole program state: the document, the pending timers and the
    fields of the single [TicTacToe] instance. *)
Record Game := mkGame {
  tiles : list Tile;
  difficulty : option Z;
  shown : list Output;
  timers : list Timer;
  score : Score.t;
  players : PlayerMarker.t;
  currentPlayer : string;
  round : Z;
  winner : bool
}.

#[global] Instance Outcome_eq_dec : EqDecision Outcome.
Proof. solve_decision. Defined.
#[global] Instance Timer_eq_dec : EqDecision Timer.
Proof. solve_decision. Defined.

Definition set_tiles (v : list Tile) (g : Game) : Game :=
  mkGame v (difficulty g) (shown g) (timers g) (score g) (players g)
         (currentPlayer g) (round g) (winner g).
Definition set_difficulty (v : option Z) (g : Game) : Game :=
  mkGame (tiles g) v (shown g) (timers g) (score g) (players g)
         (currentPlayer g) (round g) (winner g).
Definition set_shown (v : list Output) (g : Game) : Game :=
  mkGame (tiles g) (difficulty g) v (timers g) (score g) (players g)
         (currentPlayer g) (round g) (winner g).
Definition set_timers (v : list Timer) (g : Game) : Game :=
  mkGame (tiles g) (difficulty g) (shown g) v (score g) (players g)
         (currentPlayer g) (round g) (winner g).
Definition set_score (v : Score.t) (g : Game) : Game :=
  mkGame (tiles g) (difficulty g) (shown g) (timers g) v (players g)
         (currentPlayer g) (round g) (winner g).
Definition set_players (v : PlayerMarker.t) (g : Game) : Game :=
  mkGame (tiles g) (difficulty g) (shown g) (timers g) (score g) v
         (currentPlayer g) (round g) (winner g).
Definition set_currentPlayer (v : string) (g : Game) : Game :=
  mkGame (tiles g) (difficulty g) (shown g) (timers g) (score g) (players g)
         v (round g) (winner g).
Definition set_round (v : Z) (g : Game) : Game :=
  mkGame (tiles g) (difficulty g) (shown g) (timers g) (score g) (players g)
         (currentPlayer g) v (winner g).
Definition set_winner (v : bool) (g : Game) : Game :=
  mkGame (tiles g) (difficulty g) (shown g) (timers g) (score g) (players g)
         (currentPlayer g) (round g) v.

(** [console]-free helpers: append to the score board, schedule a timer. *)
Definition show (o : Output) (g : Game) : Game := set_shown (shown g ++ [o]) g.
Definition setTimeout (t : Timer) (g : Game) : Game :=
  set_timers (timers g ++ [t]) g.

(** Truthiness of a dataset entry: present and not the empty string. *)
Definition truthy (v : option string) : bool :=
  match v with
  | Some s => negb (bool_decide (s = ""))
  | None => false
  end.

(** [{ x: "Computer", o: "Player" }] *)
Definition initialPlayers : PlayerMarker.t := PlayerMarker.mk "Computer" "Player".

(** ** class DOMDisplay *)
Module DOMDisplay.

Definition game3Wins : list (list Z) :=
  [ [0; 1; 2]; [3; 4; 5]; [6; 7; 8];
    [0; 3; 6]; [1; 4; 7]; [2; 5; 8];
    [0; 4; 8]; [2; 4; 6] ]%Z.

Definition game4Wins : list (list Z) :=
  [ [0; 1; 2; 3]; [3; 4; 5; 6]; [6; 7; 8; 9]; [10; 11; 12; 13];
    [0; 4; 8; 12]; [1; 5; 9; 13]; [2; 6; 10; 14]; [3; 7; 11; 15];
    [0; 5; 10; 15]; [3; 6; 8; 9] ]%Z.

Definition game5Wins : list (list Z) :=
  [ [0; 1; 2; 3; 4]; [5; 6; 7; 8; 9]; [10; 11; 12; 13; 14];
    [15; 16; 17; 18; 19]; [20; 21; 22; 23; 24];
    [0; 5; 10; 15; 20]; [1; 6; 11; 16; 21]; [2; 7; 12; 17; 22];
    [3; 8; 13; 18; 23]; [4; 9; 14; 19; 24];
    [5; 10; 15; 20; 25]; [5; 10; 15; 20; 25];
    [0; 6; 12; 18; 24]; [4; 8; 12; 16; 20] ]%Z.

(** [let gameWin = []; if (gameMode === 3) ... else if ... ] *)
Definition gameWin (gameMode : Z) : list (list Z) :=
  if bool_decide (gameMode = 3%Z) then game3Wins
  else if bool_decide (gameMode = 4%Z) then game4Wins
  else if bool_decide (gameMode = 5%Z) then game5Wins
  else [].

(** The first loop of [checkWinner]: the pair [(xTiles, oTiles)]. *)
Fixpoint ownedTiles (ts : list Tile) : list Z * list Z :=
  match ts with
  | [] => ([], [])
  | tile :: rest =>
      let '(xTiles, oTiles) := ownedTiles rest in
      match owned tile, tileIndex tile with
      | Some tileOwner, Some idx =>
          if bool_decide (tileOwner = "X") then ((idx - 1)%Z :: xTiles, oTiles)
          else if bool_decide (tileOwner = "O") then (xTiles, (idx - 1)%Z :: oTiles)
          else (xTiles, oTiles)
      | _, _ => (xTiles, oTiles)
      end
  end.

(** [xs.includes(a)] *)
Definition includes (xs : list Z) (a : Z) : bool := bool_decide (a ∈ xs).

(** One iteration of the inner loop, on the flags [(xWinner, oWinner)]. *)
Definition lineStep (xTiles oTiles : list Z) (flags : bool * bool) (a : Z)
  : bool * bool :=
  let '(xWinner, oWinner) := flags in
  let '(xWinner, oWinner) :=
    if includes xTiles a then (xWinner && true, false) else (false, oWinner) in
  if includes oTiles a then (false, oWinner && true) else (xWinner, false).

(** The inner loop over one line, started with both flags [true]. *)
Definition lineFlags (xTiles oTiles : list Z) (arr : list Z) : bool * bool :=
  foldl (lineStep xTiles oTiles) (true, true) arr.

(** The outer loop: [Some arr] is the line at which it returns [true]. *)
Fixpoint winningLine (xTiles oTiles : list Z) (lines : list (list Z))
  : option (list Z) :=
  match lines with
  | [] => None
  | arr :: rest =>
      let '(xWinner, oWinner) := lineFlags xTiles oTiles arr in
      if xWinner || oWinner then Some arr else winningLine xTiles oTiles rest
  end.

Definition printWinnerMessage (round : Z) (currentPlayer : string) (g : Game)
  : Game :=
  setTimeout HideBoard (show (RoundWinnerMessage round currentPlayer) g).

Definition checkWinner (gameMode : Z) (currentPlayer : string) (round : Z)
           (g : Game) : bool * Game :=
  let '(xTiles, oTiles) := ownedTiles (tiles g) in
  match winningLine xTiles oTiles (gameWin gameMode) with
  | Some _ => (true, printWinnerMessage round currentPlayer g)
  | None => (false, g)
  end.

Definition getCurrentDifficulty (g : Game) : option Z := difficulty g.

(** The loop of [getPlayableTile]; [currentTile] is the variable of that
    name, [i] the loop counter. *)
Fixpoint playableLoop (rest : list Tile) (i : nat) (currentTile : option nat)
  : option nat :=
  match rest with
  | [] => currentTile
  | tile :: rest' =>
      if truthy (owned tile) then playableLoop rest' (S i) (Some i)
      else Some i
  end.

Definition getPlayableTile (g : Game) : option nat :=
  playableLoop (tiles g) 0 None.

Definition playComputer (clickHandler : nat -> Game -> Game) (g : Game)
  : Game :=
  match getPlayableTile g with
  | None => g
  | Some playableTile => clickHandler playableTile g
  end.

(** The click listener [bindHandler] attaches to every tile. *)
Definition tileListener (clickHandler : nat -> Game -> Game) (i : nat)
           (g : Game) : Game :=
  match tiles g !! i with
  | None => g
  | Some tile =>
      if truthy (owned tile) || negb (bool_decide (is_Some (tileIndex tile)))
      then g
      else playComputer clickHandler (clickHandler i g)
  end.

(** [createTiles]: tiles numbered [1 .. requiredTileCount], unowned. *)
Definition createTiles (requiredTileCount : Z) : list Tile :=
  map (fun i => mkTile (Some (Z.of_nat i + 1)%Z) None)
      (seq 0 (Z.to_nat requiredTileCount)).

Definition printGameBoard (gameMode : Z) (g : Game) : Game :=
  set_tiles (createTiles (gameMode * gameMode)%Z) g.

Definition selectGameMode (gameMode : Z) (clickHandler : nat -> Game -> Game)
           (g : Game) : Game :=
  playComputer clickHandler (printGameBoard gameMode g).

Definition startWithDifficulty (clickHandler : nat -> Game -> Game) (g : Game)
  : Game :=
  match getCurrentDifficulty g with
  | Some selectedDifficulty =>
      if bool_decide (selectedDifficulty = 0%Z) then g
      else selectGameMode selectedDifficulty clickHandler g
  | None => g
  end.

Definition clearGameBoard (g : Game) : Game :=
  set_difficulty None (set_tiles [] g).

Definition clearMessage (g : Game) : Game := show MessageCleared g.

Definition updateScore (round : Z) (currentScore : Score.t)
           (currentPlayer : string) (g : Game) : Game :=
  show (ScoreUpdated currentPlayer
          (if bool_decide (currentPlayer = "Computer")
           then Score.x currentScore else Score.o currentScore)
          (round + 1)%Z) g.

Definition outcomeOf (sc : Score.t) : Outcome :=
  if bool_decide (Score.o sc = Score.x sc) then GameTied
  else if bool_decide (Score.o sc > Score.x sc)%Z then GameWonByPlayer
  else GameWonByComputer.

Definition printGameOutcome (sc : Score.t) (currentPlayer : string) (g : Game)
  : Game :=
  show (GameOutcome (outcomeOf sc)) g.

End DOMDisplay.

(** ** class TicTacToe *)
Module TicTacToe.

(** [this.currentPlayer == "Computer" ? "X" : "O"] *)
Definition marker (g : Game) : string :=
  if bool_decide (currentPlayer g = "Computer") then "X" else "O".

(** [tile.dataset["owned"] = ...] on the tile at position [i]. *)
Definition markTile (i : nat) (g : Game) : Game :=
  set_tiles (alter (fun tile => mkTile (tileIndex tile) (Some (marker g))) i
                   (tiles g)) g.

Definition checkWinner (round : Z) (currentPlayer : string) (g : Game)
  : bool * Game :=
  DOMDisplay.checkWinner (default 0%Z (DOMDisplay.getCurrentDifficulty g))
                         currentPlayer round g.

Definition increaseScore (g : Game) : Game :=
  if bool_decide (currentPlayer g = "Computer")
  then set_score (Score.mk (Score.x (score g) + 1)%Z (Score.o (score g))) g
  else set_score (Score.mk (Score.x (score g)) (Score.o (score g) + 1)%Z) g.

Definition switchPlayer (g : Game) : Game :=
  set_currentPlayer
    (if bool_decide (currentPlayer g = PlayerMarker.x (players g))
     then PlayerMarker.o (players g) else PlayerMarker.x (players g)) g.

Definition resetGame (g : Game) : Game :=
  let g := DOMDisplay.clearGameBoard g in
  let g := DOMDisplay.clearMessage g in
  let g := set_players initialPlayers g in
  let g := set_currentPlayer (PlayerMarker.x (players g)) g in
  let g := set_score (Score.mk 0 0) g in
  let g := set_winner false g in
  set_round 1%Z g.

(** [--this.round] followed by [updateScore] with the decremented value. *)
Definition reportScore (g : Game) : Game :=
  let g := set_round (round g - 1)%Z g in
  DOMDisplay.updateScore (round g) (score g) (currentPlayer g) g.

Definition clickTile (i : nat) (g : Game) : Game :=
  if winner g then g
  else
    let g := markTile i g in
    let '(won, g) := checkWinner (round g) (currentPlayer g) g in
    let g := set_winner won g in
    if negb (winner g) then switchPlayer g
    else
      let g := set_round (round g + 1)%Z g in
      if bool_decide
           (round g > default 0 (DOMDisplay.getCurrentDifficulty g))%Z
      then
        let g := increaseScore g in
        let g := reportScore g in
        let g := DOMDisplay.printGameOutcome (score g) (currentPlayer g) g in
        setTimeout ResetMatch g
      else
        let g := increaseScore g in
        let g := reportScore g in
        let g := set_players initialPlayers g in
        let g := set_currentPlayer (PlayerMarker.x (players g)) g in
        setTimeout NextRound g.

(** The listener [selectDifficulty] installs, for a click on a difficulty
    button whose [data-difficulty] reads [selectedDifficulty]: first the
    assignments, then [selectGameMode]. *)
Definition difficultySelected (selectedDifficulty : Z) (g : Game) : Game :=
  let g := set_difficulty (Some selectedDifficulty) g in
  let g := DOMDisplay.clearMessage g in
  let g := set_players initialPlayers g in
  let g := set_currentPlayer (PlayerMarker.x (players g)) g in
  let g := set_score (Score.mk 0 0) g in
  let g := set_winner false g in
  set_round 1%Z g.

Definition difficultyListener (selectedDifficulty : Z) (g : Game) : Game :=
  DOMDisplay.selectGameMode selectedDifficulty clickTile
                            (difficultySelected selectedDifficulty g).

(** The body of the 2000 ms callback of a round that is not the last:
    first the two assignments, then [startWithDifficulty]. *)
Definition roundAdvanced (g : Game) : Game :=
  let g := set_winner false g in
  set_round (round g + 1)%Z g.

Definition nextRound (g : Game) : Game :=
  DOMDisplay.startWithDifficulty clickTile (roundAdvanced g).

(** Fields after [new TicTacToe(new DOMDisplay())] on an empty board. *)
Definition constructed : Game :=
  mkGame [] None [] [] (Score.mk 0 0) initialPlayers "Computer" 1%Z false.

(** [ticTacToe.startGame()]: [resetGame] and the installation of the
    listeners. *)
Definition startGame : Game := resetGame constructed.

End TicTacToe.

(** ** The event loop *)

Inductive Event :=
| TileClicked (i : nat)          (* click on the tile at position i *)
| DifficultyClicked (d : Z)      (* click on a difficulty button *)
| NewGameClicked                 (* click on the new-game button *)
| TimerFired (k : nat).          (* the k-th pending timer fires *)

Definition runTimer (t : Timer) (g : Game) : Game :=
  match t with
  | HideBoard => set_tiles [] g
  | ResetMatch => TicTacToe.resetGame g
  | NextRound => TicTacToe.nextRound g
  end.

Definition step (e : Event) (g : Game) : Game :=
  match e with
  | TileClicked i => DOMDisplay.tileListener TicTacToe.clickTile i g
  | DifficultyClicked d => TicTacToe.difficultyListener d g
  | NewGameClicked => TicTacToe.resetGame g
  | TimerFired k =>
      match timers g !! k with
      | Some t => runTimer t (set_timers (delete k (timers g)) g)
      | None => g
      end
  end.

Definition run (es : list Event) (g : Game) : Game :=
  foldl (fun g e => step e g) g es.

(** The tile a move is made on, and the state it is made in. *)
Definition Move : Type := nat * Game.

(** A move wins when it is accepted and the win check that follows the
    marking returns [true]. *)
Definition winningMove (m : Move) : bool :=
  let '(i, g) := m in
  negb (winner g) &&
  fst (TicTacToe.checkWinner (round g) (currentPlayer g) (TicTacToe.markTile i g)).

(** The call [playComputer(clickTile)] makes in [g], if any. *)
Definition computerMove (g : Game) : list Move :=
  match DOMDisplay.getPlayableTile g with
  | Some j => [(j, g)]
  | None => []
  end.

(** The calls of [clickTile] an event makes, in order, each with the state
    it is made in. *)
Definition moves (e : Event) (g : Game) : list Move :=
  match e with
  | TileClicked i =>
      match tiles g !! i with
      | None => []
      | Some tile =>
          if truthy (owned tile) || negb (bool_decide (is_Some (tileIndex tile)))
          then []
          else (i, g) :: computerMove (TicTacToe.clickTile i g)
      end
  | DifficultyClicked d =>
      computerMove (DOMDisplay.printGameBoard d (TicTacToe.difficultySelected d g))
  | NewGameClicked => []
  | TimerFired k =>
      match timers g !! k with
      | Some NextRound =>
          let g := TicTacToe.roundAdvanced (set_timers (delete k (timers g)) g) in
          match DOMDisplay.getCurrentDifficulty g with
          | Some d =>
              if bool_decide (d = 0%Z) then []
              else computerMove (DOMDisplay.printGameBoard d g)
          | None => []
          end
      | _ => []
      end
  end.

(** ** Vocabulary of the claims *)

(** The index sets the win check builds from the board. *)
Definition xTiles (g : Game) : list Z := fst (DOMDisplay.ownedTiles (tiles g)).
Definition oTiles (g : Game) : list Z := snd (DOMDisplay.ownedTiles (tiles g)).

(** Every index of the line is in [mine] and none is in [theirs]. *)
Definition ownsLine (mine theirs arr : list Z) : Prop :=
  Forall (fun a => a ∈ mine ∧ a ∉ theirs) arr.

(** The same as a boolean: the flag the inner loop leaves for the owner of
    [mine]. *)
Definition ownsLineb (mine theirs arr : list Z) : bool :=
  forallb (fun a => DOMDisplay.includes mine a && negb (DOMDisplay.includes theirs a))
          arr.

(** The index set of a player, by name: the computer plays "X". *)
Definition tilesOf (player : string) (g : Game) : list Z :=
  if bool_decide (player = "Computer") then xTiles g else oTiles g.

(** The player has a line of the table of which it owns every index. *)
Definition hasWinningLine (gameMode : Z) (player : string) (g : Game) : Prop :=
  ∃ arr, arr ∈ DOMDisplay.gameWin gameMode ∧ ∀ a, a ∈ arr → a ∈ tilesOf player g.

(** The tile carries a marker: its [dataset.owned] is truthy. *)
Definition isOwned (tile : Tile) : Prop := truthy (owned tile) = true.

(** [k] is the position of the first unowned tile of the list. *)
Definition firstUnowned (ts : list Tile) (k : nat) : Prop :=
  (∃ tile, ts !! k = Some tile ∧ ¬ isOwned tile) ∧
  ∀ j tile, j < k → ts !! j = Some tile → isOwned tile.

(** The other of the two player names. *)
Definition otherPlayer (player : string) : string :=
  if bool_decide (player = "Computer") then "Player" else "Computer".

(** The move is the winning move of the last round: the incremented round
    counter exceeds the selected difficulty. *)
Definition lastRoundOf (g : Game) : Prop :=
  (round g + 1 > default 0 (DOMDisplay.getCurrentDifficulty g))%Z.

(** Somewhere in the run [es] from the start of the program an event made
    a winning move. *)
Definition wonBefore (es : list Event) : Prop :=
  ∃ pre e post m,
    es = pre ++ e :: post ∧
    m ∈ moves e (run pre TicTacToe.startGame) ∧
    winningMove m = true.

(** The moves of a list follow one another: each is made in the state the
    previous one left, the first in [g0]. *)
Fixpoint chained (g0 : Game) (ms : list Move) : Prop :=
  match ms with
  | [] => True
  | (i, s) :: rest => s = g0 ∧ chained (TicTacToe.clickTile i s) rest
  end.

(** The state after the moves of a list, made from [g0]. *)
Definition afterMoves (g0 : Game) (ms : list Move) : Game :=
  foldl (fun s m => TicTacToe.clickTile m.1 s) g0 ms.

(** The tiles are numbered by position, from 1, as [createTiles] writes
    them. *)
Definition numbered (ts : list Tile) : Prop :=
  ∀ i tile, ts !! i = Some tile → tileIndex tile = Some (Z.of_nat i + 1)%Z.

(** A tile is unowned or carries one of the two markers. *)
Definition markedOrFree (tile : Tile) : Prop :=
  owned tile = None ∨ owned tile = Some "X" ∨ owned tile = Some "O".

(** The shape of the board: numbered tiles, each unowned or marked, and, when
    there are tiles at all, as many as the square of the selected
    difficulty. *)
Definition boardInvariant (g : Game) : Prop :=
  numbered (tiles g) ∧
  Forall markedOrFree (tiles g) ∧
  (tiles g = [] ∨
   ∃ d, difficulty g = Some d ∧ Z.of_nat (length (tiles g)) = (d * d)%Z).

(** Both scores are natural numbers. *)
Definition scoresNonNegative (g : Game) : Prop :=
  (0 ≤ Score.x (score g))%Z ∧ (0 ≤ Score.o (score g))%Z.

(** The score of a player, by name. *)
Definition scoreOf (player : string) (sc : Score.t) : Z :=
  if bool_decide (player = "Computer") then Score.x sc else Score.o sc.

(** The index the first loop of the win check pushes for a tile, when the
    tile is owned by [marker]. *)
Definition indexIfOwnedBy (marker : string) (tile : Tile) : option Z :=
  match owned tile, tileIndex tile with
  | Some tileOwner, Some idx =>
      if bool_decide (tileOwner = marker) then Some (idx - 1)%Z else None
  | _, _ => None
  end.

(** A callback that clears the winner flag is pending. *)
Definition clearingPending (g : Game) : Prop :=
  ResetMatch ∈ timers g ∨ NextRound ∈ timers g.

(** A board of the square of [d] many tiles on which the opening move has
    been made with [marker]: the first tile carries it, the others are
    unowned. *)
Definition openedBoard (d : Z) (marker : string) (ts : list Tile) : Prop :=
  Z.of_nat (length ts) = (d * d)%Z ∧
  owned <$> ts !! 0 = Some (Some marker) ∧
  ∀ j tile, 0 < j → ts !! j = Some tile → owned tile = None.

(** No completed line goes unnoticed: while the winner flag is clear the win
    check finds no line on the board. *)
Definition noUnnoticedLine (g : Game) : Prop :=
  winner g = false →
  DOMDisplay.winningLine (xTiles g) (oTiles g)
    (DOMDisplay.gameWin (default 0%Z (DOMDisplay.getCurrentDifficulty g))) = None.

(** The board has its shape and hides no completed line. *)
Definition soundBoard (g : Game) : Prop := boardInvariant g ∧ noUnnoticedLine g.

(** The tiles after the tile at position [i] has been given to [marker]. *)
Definition markedWith (marker : string) (i : nat) (ts : list Tile) : list Tile :=
  alter (fun tile => mkTile (tileIndex tile) (Some marker)) i ts.

(** The events that clear a set winner flag: the two buttons, and the firing
    of the match-reset or of the next-round callback. *)
Definition clearsFlag (e : Event) (g : Game) : Prop :=
  match e with
  | TileClicked _ => False
  | DifficultyClicked _ | NewGameClicked => True
  | TimerFired k =>
      timers g !! k = Some ResetMatch ∨ timers g !! k = Some NextRound
  end.

(** The state is one the program keeps: the marker table is the initial one
    and the current player is one of its two names. *)
Definition wellFormed (g : Game) : Prop :=
  players g = initialPlayers ∧
  (currentPlayer g = "Computer" ∨ currentPlayer g = "Player") ∧
  (1 ≤ round g)%Z.

(** The lines of an [n] by [n] grid numbered row by row from 0, as the
    specification names them. *)
Module Grid.
Definition row (n r : Z) : list Z := (fun c => r * n + c)%Z <$> seqZ 0 n.
Definition column (n c : Z) : list Z := (fun r => r * n + c)%Z <$> seqZ 0 n.
Definition diagonal (n : Z) : list Z := (fun k => k * n + k)%Z <$> seqZ 0 n.
Definition antiDiagonal (n : Z) : list Z :=
  (fun k => k * n + (n - 1 - k))%Z <$> seqZ 0 n.
Definition rows (n : Z) : list (list Z) := row n <$> seqZ 0 n.
Definition columns (n : Z) : list (list Z) := column n <$> seqZ 0 n.
Definition lines (n : Z) : list (list Z) :=
  rows n ++ columns n ++ [diagonal n; antiDiagonal n].
Definition inRange (n : Z) (arr : list Z) : Prop :=
  Forall (fun a => 0 ≤ a ≤ n * n - 1)%Z arr.
End Grid.

(** Boards and states used as concrete inputs. *)
Module Sample.
(** A 3 by 3 board whose first row is owned by the computer ("X"). *)
Definition topRowX : list Tile :=
  [ mkTile (Some 1%Z) (Some "X"); mkTile (Some 2%Z) (Some "X");
    mkTile (Some 3%Z) (Some "X"); mkTile (Some 4%Z) (Some "O");
    mkTile (Some 5%Z) None; mkTile (Some 6%Z) (Some "O");
    mkTile (Some 7%Z) None; mkTile (Some 8%Z) None; mkTile (Some 9%Z) None ].

Definition topRowXGame : Game :=
  mkGame topRowX (Some 3%Z) [] [] (Score.mk 0 0) initialPlayers "Player"
         1%Z false.

(** Difficulty 3 chosen, the player answered the computer's first move on
    the centre tile. *)
Definition opening : Game :=
  run [DifficultyClicked 3; TileClicked 4] TicTacToe.startGame.

(** Two player moves later the player is one move from the line 2-4-6. *)
Definition playerToWin : Game := run [TileClicked 2] opening.

(** A state in which a round has just been won. *)
Definition roundWon : Game := run [TileClicked 6] playerToWin.

(** A 2 by 2 board with every tile owned. *)
Definition fullBoard : Game :=
  mkGame [ mkTile (Some 1%Z) (Some "X"); mkTile (Some 2%Z) (Some "O");
           mkTile (Some 3%Z) (Some "X"); mkTile (Some 4%Z) (Some "O") ]
         (Some 2%Z) [] [] (Score.mk 0 0) initialPlayers "Computer" 1%Z false.

(** Last round of a match at difficulty 3, the player one move from
    the line 2-4-6 with one round won by each side. *)
Definition lastRound : Game :=
  set_score (Score.mk 1 1) (set_round 3%Z playerToWin).
(** A game at difficulty 4 in which nobody completes a line: the state
    before the player's last click, on the only free tile, at position 15. *)
Definition lastFreeTile : Game :=
  run [DifficultyClicked 4; TileClicked 1; TileClicked 3; TileClicked 5;
       TileClicked 7; TileClicked 9; TileClicked 12; TileClicked 14]
      TicTacToe.startGame.
End Sample.

(** ** The win check *)

Section WinCheck.
Variables xs os : list Z.

Lemma ownsLineb_spec mine theirs arr :
  ownsLineb mine theirs arr = true ↔ ownsLine mine theirs arr.
Proof.
  unfold ownsLineb, ownsLine, DOMDisplay.includes.
  induction arr as [|a arr IH]; cbn.
  - split; [constructor | done].
  - rewrite Forall_cons, andb_true_iff, IH, andb_true_iff, negb_true_iff.
    rewrite bool_decide_eq_true, bool_decide_eq_false. tauto.
Qed.

Lemma lineStep_foldl arr bx bo :
  foldl (DOMDisplay.lineStep xs os) (bx, bo) arr =
  (bx && ownsLineb xs os arr, bo && ownsLineb os xs arr).
Proof.
  revert bx bo. induction arr as [|a arr IH]; intros bx bo.
  - cbn. by rewrite !andb_true_r.
  - cbn [foldl]. unfold DOMDisplay.lineStep at 2. unfold ownsLineb.
    cbn [forallb]. fold (ownsLineb xs os arr) (ownsLineb os xs arr).
    destruct (DOMDisplay.includes xs a), (DOMDisplay.includes os a);
      rewrite IH; destruct bx, bo; cbn; try done;
      by rewrite ?andb_false_r.
Qed.

Lemma lineFlags_spec arr :
  DOMDisplay.lineFlags xs os arr = (ownsLineb xs os arr, ownsLineb os xs arr).
Proof. unfold DOMDisplay.lineFlags. by rewrite lineStep_foldl. Qed.

Lemma winningLine_Some lines arr :
  DOMDisplay.winningLine xs os lines = Some arr →
  arr ∈ lines ∧ (ownsLine xs os arr ∨ ownsLine os xs arr).
Proof.
  induction lines as [|l lines IH]; cbn; [done|].
  rewrite lineFlags_spec.
  destruct (ownsLineb xs os l || ownsLineb os xs l) eqn:E.
  - intros [= <-]. split; [left|].
    apply orb_true_iff in E as [E|E]; apply ownsLineb_spec in E; auto.
  - intros H. destruct (IH H) as [? ?]. split; [by right | done].
Qed.

Lemma winningLine_None lines arr :
  DOMDisplay.winningLine xs os lines = None → arr ∈ lines →
  ¬ ownsLine xs os arr ∧ ¬ ownsLine os xs arr.
Proof.
  induction lines as [|l lines IH]; cbn; [by intros _ ?%elem_of_nil|].
  rewrite lineFlags_spec.
  destruct (ownsLineb xs os l || ownsLineb os xs l) eqn:E; [done|].
  intros H [->|Hin]%elem_of_cons; [|by apply IH].
  apply orb_false_iff in E as [E1 E2].
  split; intros Ho%ownsLineb_spec; congruence.
Qed.

(** A line with an index of each owner leaves both flags [false]. *)
Lemma mixed_ownsLine arr a b :
  a ∈ arr → b ∈ arr → a ∈ xs → b ∈ os →
  ¬ ownsLine xs os arr ∧ ¬ ownsLine os xs arr.
Proof.
  intros Ha Hb Hx Ho. unfold ownsLine. rewrite !Forall_forall.
  split; intros H.
  - destruct (H b Hb) as [_ Hn]. by apply Hn.
  - destruct (H a Ha) as [_ Hn]. by apply Hn.
Qed.
End WinCheck.

Lemma ownedTiles_pair g :
  DOMDisplay.ownedTiles (tiles g) = (xTiles g, oTiles g).
Proof. unfold xTiles, oTiles. by destruct (DOMDisplay.ownedTiles (tiles g)). Qed.

Lemma checkWinner_unfold gameMode p r g :
  DOMDisplay.checkWinner gameMode p r g =
  match DOMDisplay.winningLine (xTiles g) (oTiles g) (DOMDisplay.gameWin gameMode) with
  | Some _ => (true, DOMDisplay.printWinnerMessage r p g)
  | None => (false, g)
  end.
Proof. unfold DOMDisplay.checkWinner. by rewrite ownedTiles_pair. Qed.

(** The result of the win check, in terms of owned lines. *)
Lemma checkWinner_true_iff gameMode p r g :
  fst (DOMDisplay.checkWinner gameMode p r g) = true ↔
  ∃ arr, arr ∈ DOMDisplay.gameWin gameMode ∧
         (ownsLine (xTiles g) (oTiles g) arr ∨ ownsLine (oTiles g) (xTiles g) arr).
Proof.
  rewrite checkWinner_unfold.
  destruct (DOMDisplay.winningLine _ _ _) as [arr|] eqn:E; cbn.
  - split; [intros _|done]. exists arr. by apply winningLine_Some.
  - split; [done|]. intros (arr & Hin & Ho).
    destruct (winningLine_None _ _ _ arr E Hin) as [H1 H2]. tauto.
Qed.

(** The win check never reads its [currentPlayer] argument to decide. *)
Lemma checkWinner_any_player gameMode p q r r' g :
  fst (DOMDisplay.checkWinner gameMode p r g) =
  fst (DOMDisplay.checkWinner gameMode q r' g).
Proof.
  rewrite !checkWinner_unfold. by destruct (DOMDisplay.winningLine _ _ _).
Qed.

Lemma hasWinningLine_Exists gameMode p g :
  hasWinningLine gameMode p g ↔
  Exists (Forall (fun a => a ∈ tilesOf p g)) (DOMDisplay.gameWin gameMode).
Proof.
  unfold hasWinningLine. rewrite Exists_exists.
  by setoid_rewrite Forall_forall.
Qed.

(** C1.  The win check decides without looking at [currentPlayer]: on the
    board whose first row is owned by the computer it returns [true] for the
    player, who owns no line of the table, and announces the round as won by
    the player; in general its result is the same for every name passed. *)
Theorem checkWinner_true_for_opponent :
  let g := Sample.topRowXGame in
  hasWinningLine 3 "Computer" g ∧
  ¬ hasWinningLine 3 "Player" g ∧
  fst (DOMDisplay.checkWinner 3 "Computer" 1 g) = true ∧
  fst (DOMDisplay.checkWinner 3 "Player" 1 g) = true ∧
  shown (snd (DOMDisplay.checkWinner 3 "Player" 1 g)) = [RoundWinnerMessage 1 "Player"] ∧
  (∀ gameMode p q r g',
      fst (DOMDisplay.checkWinner gameMode p r g') =
      fst (DOMDisplay.checkWinner gameMode q r g')).
Proof.
  cbv zeta. split; [|split; [|split; [|split; [|split]]]].
  - apply hasWinningLine_Exists, (bool_decide_unpack _). by vm_compute.
  - rewrite hasWinningLine_Exists. apply (bool_decide_unpack _). by vm_compute.
  - by vm_compute.
  - by vm_compute.
  - by vm_compute.
  - intros. apply checkWinner_any_player.
Qed.

(** C2.  The table of size 3 is exactly the rows, columns and diagonals of
    the grid, all in range.  The table of size 4 lacks the rows 1, 2 and 3
    and the anti-diagonal of the grid, and the table of size 5 lists the
    index 25, outside [0, 24]. *)
Theorem winLines_tables_against_grid :
  DOMDisplay.gameWin 3 = Grid.lines 3 ∧
  Forall (Grid.inRange 3) (DOMDisplay.gameWin 3) ∧
  (Grid.row 4 1 ∉ DOMDisplay.gameWin 4) ∧
  (Grid.row 4 2 ∉ DOMDisplay.gameWin 4) ∧
  (Grid.row 4 3 ∉ DOMDisplay.gameWin 4) ∧
  (Grid.antiDiagonal 4 ∉ DOMDisplay.gameWin 4) ∧
  Forall (Grid.inRange 4) (DOMDisplay.gameWin 4) ∧
  ([5; 10; 15; 20; 25]%Z ∈ DOMDisplay.gameWin 5) ∧
  ¬ Grid.inRange 5 [5; 10; 15; 20; 25]%Z ∧
  (Grid.lines 5 ⊆ DOMDisplay.gameWin 5).
Proof.
  split_and!.
  - by vm_compute.
  - apply (bool_decide_unpack _). by vm_compute.
  - apply (bool_decide_unpack _). by vm_compute.
  - apply (bool_decide_unpack _). by vm_compute.
  - apply (bool_decide_unpack _). by vm_compute.
  - apply (bool_decide_unpack _). by vm_compute.
  - apply (bool_decide_unpack _). by vm_compute.
  - apply (bool_decide_unpack _). by vm_compute.
  - unfold Grid.inRange. rewrite !Forall_cons. lia.
  - intros arr Hin. apply (bool_decide_unpack _).
    assert (Hl : Grid.lines 5 =
      [ [0; 1; 2; 3; 4]; [5; 6; 7; 8; 9]; [10; 11; 12; 13; 14];
        [15; 16; 17; 18; 19]; [20; 21; 22; 23; 24];
        [0; 5; 10; 15; 20]; [1; 6; 11; 16; 21]; [2; 7; 12; 17; 22];
        [3; 8; 13; 18; 23]; [4; 9; 14; 19; 24];
        [0; 6; 12; 18; 24]; [4; 8; 12; 16; 20] ]%Z) by by vm_compute.
    rewrite Hl in Hin.
    repeat (apply elem_of_cons in Hin as [->|Hin]); try by vm_compute.
    by apply elem_of_nil in Hin.
Qed.

(** C4.  A line of the table holding an index owned by "X" and an index
    owned by "O" leaves both flags of the inner loop [false] and is never the
    line at which the win check returns; the check returns [true] exactly
    when some line of the table has every index in one owner's set and none
    in the other's. *)
Theorem mixed_line_never_wins (g : Game) (gameMode : Z) (p : string) (r : Z)
        (arr : list Z) (a b : Z) :
  arr ∈ DOMDisplay.gameWin gameMode →
  a ∈ arr → b ∈ arr → a ∈ xTiles g → b ∈ oTiles g →
  DOMDisplay.lineFlags (xTiles g) (oTiles g) arr = (false, false) ∧
  DOMDisplay.winningLine (xTiles g) (oTiles g) (DOMDisplay.gameWin gameMode)
    ≠ Some arr ∧
  (fst (DOMDisplay.checkWinner gameMode p r g) = true ↔
   ∃ arr', arr' ∈ DOMDisplay.gameWin gameMode ∧
           (ownsLine (xTiles g) (oTiles g) arr' ∨
            ownsLine (oTiles g) (xTiles g) arr')).
Proof.
  intros Hin Ha Hb Hx Ho.
  destruct (mixed_ownsLine _ _ _ _ _ Ha Hb Hx Ho) as [Hnx Hno].
  split_and!.
  - rewrite lineFlags_spec. f_equal.
    + destruct (ownsLineb (xTiles g) (oTiles g) arr) eqn:E; [|done].
      by apply ownsLineb_spec in E.
    + destruct (ownsLineb (oTiles g) (xTiles g) arr) eqn:E; [|done].
      by apply ownsLineb_spec in E.
  - intros Hw. apply winningLine_Some in Hw as [_ [?|?]]; tauto.
  - apply checkWinner_true_iff.
Qed.

Lemma mixed_line_never_wins_witness :
  let g := Sample.playerToWin in
  DOMDisplay.lineFlags (xTiles g) (oTiles g) [0; 1; 2]%Z = (false, false) ∧
  DOMDisplay.winningLine (xTiles g) (oTiles g) (DOMDisplay.gameWin 3)
    ≠ Some [0; 1; 2]%Z ∧
  (fst (DOMDisplay.checkWinner 3 "Player" 1 g) = true ↔
   ∃ arr', arr' ∈ DOMDisplay.gameWin 3 ∧
           (ownsLine (xTiles g) (oTiles g) arr' ∨
            ownsLine (oTiles g) (xTiles g) arr')).
Proof.
  apply (mixed_line_never_wins Sample.playerToWin 3 "Player" 1 [0; 1; 2]%Z 0%Z 2%Z);
    apply (bool_decide_unpack _); vm_compute; exact I.
Defined.

(** C5.  For a board size other than 3, 4 and 5 the table is empty and the
    win check returns [false], writes nothing and schedules nothing. *)
Theorem checkWinner_unsupported_size (gameMode : Z) (p : string) (r : Z)
        (g : Game) :
  gameMode ≠ 3%Z → gameMode ≠ 4%Z → gameMode ≠ 5%Z →
  DOMDisplay.gameWin gameMode = [] ∧
  DOMDisplay.checkWinner gameMode p r g = (false, g).
Proof.
  intros H3 H4 H5.
  assert (Hw : DOMDisplay.gameWin gameMode = []).
  { unfold DOMDisplay.gameWin. by rewrite !bool_decide_eq_false_2. }
  split; [done|]. by rewrite checkWinner_unfold, Hw.
Qed.

Lemma checkWinner_unsupported_size_witness :
  DOMDisplay.gameWin 6 = [] ∧
  DOMDisplay.checkWinner 6 "Computer" 1 Sample.topRowXGame
  = (false, Sample.topRowXGame).
Proof.
  apply (checkWinner_unsupported_size 6 "Computer" 1 Sample.topRowXGame); lia.
Defined.

(** ** Moves *)

(** [clickTile] by cases: rejected, winning (last round or not), not
    winning. *)
Lemma clickTile_spec i g :
  TicTacToe.clickTile i g =
  if winner g then g
  else if winningMove (i, g) then
    let g2 :=
      TicTacToe.reportScore (TicTacToe.increaseScore
        (set_round (round g + 1)%Z (set_winner true
           (DOMDisplay.printWinnerMessage (round g) (currentPlayer g)
              (TicTacToe.markTile i g))))) in
    if bool_decide (round g + 1 > default 0 (difficulty g))%Z
    then setTimeout ResetMatch
           (DOMDisplay.printGameOutcome (score g2) (currentPlayer g2) g2)
    else setTimeout NextRound
           (set_currentPlayer "Computer" (set_players initialPlayers g2))
  else TicTacToe.switchPlayer (set_winner false (TicTacToe.markTile i g)).
Proof.
  unfold TicTacToe.clickTile, winningMove.
  destruct (winner g) eqn:Hw; [done|]. cbn [negb andb].
  change (round (TicTacToe.markTile i g)) with (round g).
  change (currentPlayer (TicTacToe.markTile i g)) with (currentPlayer g).
  unfold TicTacToe.checkWinner. rewrite checkWinner_unfold.
  destruct (DOMDisplay.winningLine _ _ _); cbn [fst]; [|done].
  cbn -[TicTacToe.markTile TicTacToe.increaseScore Z.add].
  done.
Qed.

(** Case analysis on a call of [clickTile]. *)
Ltac click_cases i g :=
  rewrite (clickTile_spec i g);
  destruct (winner g) eqn:?;
  [ | destruct (winningMove (i, g)) eqn:?;
      [ cbv zeta; case_bool_decide | ] ].

Ltac unfold_ops :=
  unfold TicTacToe.reportScore, TicTacToe.increaseScore, TicTacToe.switchPlayer,
    TicTacToe.markTile, TicTacToe.resetGame, TicTacToe.roundAdvanced,
    TicTacToe.difficultySelected,
    DOMDisplay.printWinnerMessage, DOMDisplay.printGameOutcome,
    DOMDisplay.updateScore, DOMDisplay.clearGameBoard, DOMDisplay.clearMessage,
    DOMDisplay.printGameBoard, DOMDisplay.getCurrentDifficulty,
    setTimeout, show in *.

Lemma clickTile_blocked i g : winner g = true → TicTacToe.clickTile i g = g.
Proof. intros H. unfold TicTacToe.clickTile. by rewrite H. Qed.

(** A call of [clickTile] leaves the round counter as it found it: the
    increment of a winning move is undone by [--this.round]. *)
Lemma round_clickTile i g : round (TicTacToe.clickTile i g) = round g.
Proof.
  click_cases i g; unfold_ops; repeat case_bool_decide; cbn; lia.
Qed.

Lemma difficulty_clickTile i g :
  difficulty (TicTacToe.clickTile i g) = difficulty g.
Proof. click_cases i g; unfold_ops; repeat case_bool_decide; by cbn. Qed.

Lemma timers_clickTile i g :
  timers (TicTacToe.clickTile i g) =
  if winningMove (i, g)
  then timers g ++ [HideBoard;
         if bool_decide (round g + 1 > default 0 (difficulty g))%Z
         then ResetMatch else NextRound]
  else timers g.
Proof.
  click_cases i g.
  - unfold winningMove. by rewrite Heqb.
  - unfold_ops; repeat case_bool_decide; cbn; by rewrite <- app_assoc.
  - unfold_ops; repeat case_bool_decide; cbn; by rewrite <- app_assoc.
  - done.
Qed.

Lemma winner_clickTile i g :
  winner (TicTacToe.clickTile i g) = winner g || winningMove (i, g).
Proof.
  click_cases i g; unfold_ops; repeat case_bool_decide; by cbn.
Qed.

Lemma tiles_clickTile i g :
  tiles (TicTacToe.clickTile i g) =
  if winner g then tiles g else tiles (TicTacToe.markTile i g).
Proof. click_cases i g; unfold_ops; repeat case_bool_decide; by cbn. Qed.

Lemma wellFormed_clickTile i g :
  wellFormed g → wellFormed (TicTacToe.clickTile i g).
Proof.
  intros (Hp & Hc & Hr). unfold wellFormed. rewrite round_clickTile.
  click_cases i g; [done|..]; unfold_ops; cbn; repeat case_bool_decide; cbn;
    rewrite ?Hp; cbn; split_and?; auto.
Qed.

(** ** The computer opponent *)

Lemma firstUnowned_exists ts :
  Exists (fun tile => ¬ isOwned tile) ts → ∃ k, firstUnowned ts k.
Proof.
  induction ts as [|t ts IH]; intros Hex; [by apply Exists_nil in Hex|].
  destruct (decide (isOwned t)) as [Ht|Ht].
  - apply Exists_cons in Hex as [?|Hex]; [done|].
    destruct (IH Hex) as (k & (tile & Hk & Hn) & Hlt).
    exists (S k). split; [by exists tile|].
    intros [|j] tile' Hj Hl; cbn in Hl; [by inversion Hl; subst|].
    apply (Hlt j); [lia|done].
  - exists 0. split; [by exists t|]. intros; lia.
Qed.

Lemma playableLoop_unowned ts i cur k :
  firstUnowned ts k → DOMDisplay.playableLoop ts i cur = Some (i + k).
Proof.
  revert i cur k. induction ts as [|t ts IH]; intros i cur k [(tile & Hk & Hn) Hlt].
  - done.
  - cbn. destruct k as [|k]; cbn in Hk.
    + inversion Hk; subst. unfold isOwned in Hn.
      destruct (truthy (owned tile)); [done|]. f_equal; lia.
    + rewrite (Hlt 0 t) by (done || lia).
      rewrite (IH (S i) (Some i) k); [f_equal; lia|].
      split; [by exists tile|]. intros j tile' Hj Hl. apply (Hlt (S j)); [lia|done].
Qed.

Lemma playableLoop_all_owned ts i cur :
  Forall isOwned ts →
  DOMDisplay.playableLoop ts i cur =
  match ts with [] => cur | _ => Some (i + length ts - 1) end.
Proof.
  revert i cur. induction ts as [|t ts IH]; intros i cur Hall; [done|].
  apply Forall_cons in Hall as [Ht Hall]. cbn. rewrite Ht, IH by done.
  destruct ts; f_equal; cbn; lia.
Qed.

(** C10.  On a board with an unowned tile [getPlayableTile] returns the
    position of the first unowned tile; on a board whose tiles are all owned
    it returns the last tile, which is owned, and [playComputer] calls the
    click handler on that tile.  (Only a board without tiles, which has no
    last tile, gives [undefined] and leaves [playComputer] idle.) *)
Theorem getPlayableTile_first_unowned_else_last (g : Game) :
  (Exists (fun tile => ¬ isOwned tile) (tiles g) →
   ∃ k, DOMDisplay.getPlayableTile g = Some k ∧ firstUnowned (tiles g) k) ∧
  (∀ lastTile,
     Forall isOwned (tiles g) → last (tiles g) = Some lastTile →
     DOMDisplay.getPlayableTile g = Some (length (tiles g) - 1) ∧
     tiles g !! (length (tiles g) - 1) = Some lastTile ∧
     isOwned lastTile ∧
     ∀ clickHandler,
       DOMDisplay.playComputer clickHandler g =
       clickHandler (length (tiles g) - 1) g) ∧
  (tiles g = [] →
   DOMDisplay.getPlayableTile g = None ∧
   ∀ clickHandler, DOMDisplay.playComputer clickHandler g = g).
Proof.
  unfold DOMDisplay.playComputer, DOMDisplay.getPlayableTile. split_and!.
  - intros Hex. destruct (firstUnowned_exists _ Hex) as [k Hk].
    exists k. split; [|done]. by rewrite (playableLoop_unowned _ 0 None k).
  - intros lastTile Hall Hlast.
    assert (Hnth : tiles g !! (length (tiles g) - 1) = Some lastTile).
    { rewrite last_lookup in Hlast. by replace (length (tiles g) - 1)
        with (pred (length (tiles g))) by lia. }
    assert (Hget : DOMDisplay.playableLoop (tiles g) 0 None
                   = Some (length (tiles g) - 1)).
    { rewrite playableLoop_all_owned by done.
      destruct (tiles g); [done|]. f_equal. }
    split_and!; [done|done| |].
    + by eapply Forall_lookup_1 in Hall.
    + intros h. by rewrite Hget.
  - intros ->. done.
Qed.

(** In a real game at difficulty 4 the player's click on the last free tile
    fills the board; the computer's turn that follows is made on that same
    tile, now owned by the player, and hands it to the computer. *)
Example computer_retakes_last_tile :
  let g := Sample.lastFreeTile in
  DOMDisplay.getPlayableTile g = Some 15 ∧
  moves (TileClicked 15) g = [(15, g); (15, TicTacToe.clickTile 15 g)] ∧
  owned <$> tiles (TicTacToe.clickTile 15 g) !! 15 = Some (Some "O") ∧
  owned <$> tiles (step (TileClicked 15) g) !! 15 = Some (Some "X").
Proof. by vm_compute. Qed.

Lemma getPlayableTile_first_unowned_else_last_witness :
  (∃ k, DOMDisplay.getPlayableTile Sample.playerToWin = Some k ∧
        firstUnowned (tiles Sample.playerToWin) k) ∧
  DOMDisplay.getPlayableTile Sample.fullBoard = Some 3 ∧
  DOMDisplay.playComputer TicTacToe.clickTile Sample.fullBoard
  = TicTacToe.clickTile 3 Sample.fullBoard.
Proof.
  destruct (getPlayableTile_first_unowned_else_last Sample.playerToWin)
    as [Hfirst _].
  destruct (getPlayableTile_first_unowned_else_last Sample.fullBoard)
    as (_ & Hlast & _).
  assert (Hall : Forall isOwned (tiles Sample.fullBoard)).
  { apply (bool_decide_unpack _). vm_compute. exact I. }
  destruct (Hlast (mkTile (Some 4%Z) (Some "O")) Hall eq_refl)
    as (Hget & _ & _ & Hplay).
  split; [|split].
  - apply Hfirst. apply (bool_decide_unpack _). vm_compute. exact I.
  - exact Hget.
  - exact (Hplay TicTacToe.clickTile).
Defined.

(** ** Guards of a move *)


Lemma playComputer_blocked g :
  winner g = true → DOMDisplay.playComputer TicTacToe.clickTile g = g.
Proof.
  intros H. unfold DOMDisplay.playComputer.
  destruct (DOMDisplay.getPlayableTile g); [by apply clickTile_blocked|done].
Qed.

Lemma tileListener_blocked i g :
  winner g = true → DOMDisplay.tileListener TicTacToe.clickTile i g = g.
Proof.
  intros H. unfold DOMDisplay.tileListener.
  destruct (tiles g !! i); [|done].
  destruct (_ || _); [done|].
  rewrite (clickTile_blocked i g H). by apply playComputer_blocked.
Qed.




(** C6, as stated, fails: the player's winning move in a round that is not
    the last hands the turn back to the computer. *)
Lemma player_win_changes_currentPlayer :
  let g := Sample.playerToWin in
  wellFormed g ∧ winner g = false ∧ winningMove (6, g) = true ∧
  currentPlayer g = "Player" ∧
  currentPlayer (TicTacToe.clickTile 6 g) = "Computer" ∧
  currentPlayer (TicTacToe.clickTile 6 g) ≠ currentPlayer g.
Proof.
  cbv zeta. unfold wellFormed.
  split_and!; try (by vm_compute). right. by vm_compute.
Qed.

(** C6, amended.  An accepted move that does not win switches
    [currentPlayer] to the other player.  The winning move of the last round
    leaves [currentPlayer] as it is; the winning move of an earlier round
    sets it to the computer. *)
Theorem currentPlayer_after_move (i : nat) (g : Game) :
  wellFormed g → winner g = false →
  (winningMove (i, g) = false →
   currentPlayer (TicTacToe.clickTile i g) = otherPlayer (currentPlayer g)) ∧
  (winningMove (i, g) = true → lastRoundOf g →
   currentPlayer (TicTacToe.clickTile i g) = currentPlayer g) ∧
  (winningMove (i, g) = true → ¬ lastRoundOf g →
   currentPlayer (TicTacToe.clickTile i g) = "Computer").
Proof.
  intros (Hp & Hc & _) Hw. unfold lastRoundOf, otherPlayer.
  split_and!; intros Hm; [|intros Hl..];
    rewrite clickTile_spec, Hw, Hm; cbv zeta.
  - unfold_ops. cbn. rewrite Hp. cbn.
    destruct Hc as [-> | ->]; by vm_compute.
  - rewrite bool_decide_eq_true_2 by done.
    unfold_ops; repeat case_bool_decide; by cbn.
  - rewrite bool_decide_eq_false_2 by done. done.
Qed.

Lemma currentPlayer_after_move_witness :
  currentPlayer (TicTacToe.clickTile 2 Sample.opening) = "Computer" ∧
  currentPlayer (TicTacToe.clickTile 6 Sample.lastRound) = "Player" ∧
  currentPlayer (TicTacToe.clickTile 6 Sample.playerToWin) = "Computer".
Proof.
  assert (Hwf : ∀ g, players g = initialPlayers → currentPlayer g = "Player" →
                     round g = 1%Z ∨ round g = 3%Z → wellFormed g).
  { intros g Hp Hc Hr. split; [done|]. split; [by right|]. lia. }
  destruct (currentPlayer_after_move 2 Sample.opening) as (H1 & _ & _);
    [apply Hwf; [reflexivity | reflexivity | left; reflexivity] | reflexivity |].
  destruct (currentPlayer_after_move 6 Sample.lastRound) as (_ & H2 & _);
    [apply Hwf; [reflexivity | reflexivity | right; reflexivity] | reflexivity |].
  destruct (currentPlayer_after_move 6 Sample.playerToWin) as (_ & _ & H3);
    [apply Hwf; [reflexivity | reflexivity | left; reflexivity] | reflexivity |].
  split; [|split].
  - exact (H1 eq_refl).
  - apply (H2 eq_refl). unfold lastRoundOf. vm_compute. reflexivity.
  - apply (H3 eq_refl). unfold lastRoundOf. vm_compute. intros H. discriminate H.
Defined.

(** ** A fresh board *)

Lemma createTiles_cons n :
  (0 < n)%Z →
  DOMDisplay.createTiles n =
  mkTile (Some 1%Z) None ::
  map (fun i => mkTile (Some (Z.of_nat i + 1)%Z) None) (seq 1 (Z.to_nat n - 1)).
Proof.
  intros Hn. unfold DOMDisplay.createTiles.
  replace (Z.to_nat n) with (S (Z.to_nat n - 1)) at 1 by lia. done.
Qed.

Lemma getPlayableTile_fresh d g :
  d ≠ 0%Z → DOMDisplay.getPlayableTile (DOMDisplay.printGameBoard d g) = Some 0.
Proof.
  intros Hd. unfold DOMDisplay.getPlayableTile, DOMDisplay.printGameBoard.
  cbn [tiles set_tiles]. rewrite createTiles_cons by nia. done.
Qed.

(** The first move on a fresh board completes no line of any table. *)
Lemma first_move_not_winning d g :
  difficulty g = Some d →
  winningMove (0, DOMDisplay.printGameBoard d g) = false.
Proof.
  intros Hd. unfold winningMove. destruct (winner _); [done|]. cbn [negb andb].
  unfold TicTacToe.checkWinner, DOMDisplay.getCurrentDifficulty.
  change (difficulty (TicTacToe.markTile 0 (DOMDisplay.printGameBoard d g)))
    with (difficulty g).
  rewrite Hd. cbn [default]. rewrite checkWinner_unfold.
  unfold xTiles, oTiles, TicTacToe.markTile, DOMDisplay.printGameBoard,
    TicTacToe.marker.
  cbn [tiles set_tiles currentPlayer].
  unfold DOMDisplay.gameWin.
  repeat case_bool_decide; unfold id in *; subst; try done; by vm_compute.
Qed.

Lemma winner_nextRound g : winner (TicTacToe.nextRound g) = false.
Proof.
  unfold TicTacToe.nextRound, DOMDisplay.startWithDifficulty,
    DOMDisplay.getCurrentDifficulty.
  destruct (difficulty (TicTacToe.roundAdvanced g)) as [d|] eqn:Hd; [|done].
  case_bool_decide; [done|].
  unfold DOMDisplay.selectGameMode, DOMDisplay.playComputer.
  rewrite getPlayableTile_fresh by done.
  rewrite winner_clickTile, first_move_not_winning by done. done.
Qed.

Lemma winner_resetGame g : winner (TicTacToe.resetGame g) = false.
Proof. done. Qed.

Lemma last_two {A} (l : list A) a b : last (l ++ [a; b]) = Some b.
Proof.
  replace (l ++ [a; b]) with ((l ++ [a]) ++ [b]) by (by rewrite <- app_assoc).
  apply last_snoc.
Qed.

(** ** The end of the match *)

Lemma outcomeOf_spec sc :
  (DOMDisplay.outcomeOf sc = GameTied ↔ Score.o sc = Score.x sc) ∧
  (DOMDisplay.outcomeOf sc = GameWonByPlayer ↔ (Score.o sc > Score.x sc)%Z) ∧
  (DOMDisplay.outcomeOf sc = GameWonByComputer ↔ (Score.x sc > Score.o sc)%Z).
Proof.
  unfold DOMDisplay.outcomeOf.
  repeat case_bool_decide; split_and!; split; (done || lia).
Qed.

(** C9.  The winning move of the last round adds the round to the score of
    the player who moved and then reports the outcome of the match: a tie
    exactly when the two scores are equal, otherwise the player with the
    strictly higher score; the match reset is scheduled. *)
Theorem last_round_outcome (i : nat) (g : Game) :
  winningMove (i, g) = true → lastRoundOf g →
  let g' := TicTacToe.clickTile i g in
  score g' = score (TicTacToe.increaseScore g) ∧
  ∃ result,
    last (shown g') = Some (GameOutcome result) ∧
    (result = GameTied ↔ Score.o (score g') = Score.x (score g')) ∧
    (result = GameWonByPlayer ↔ (Score.o (score g') > Score.x (score g'))%Z) ∧
    (result = GameWonByComputer ↔ (Score.x (score g') > Score.o (score g'))%Z) ∧
    last (timers g') = Some ResetMatch.
Proof.
  intros Hm Hl. cbv zeta.
  assert (Hw : winner g = false).
  { unfold winningMove in Hm. by destruct (winner g). }
  assert (Hs : score (TicTacToe.clickTile i g) = score (TicTacToe.increaseScore g)).
  { rewrite clickTile_spec, Hw, Hm. cbv zeta.
    unfold lastRoundOf in Hl. rewrite bool_decide_eq_true_2 by done.
    unfold_ops; repeat case_bool_decide; by cbn. }
  split; [done|].
  exists (DOMDisplay.outcomeOf (score (TicTacToe.clickTile i g))).
  split; [|split_and!; try apply outcomeOf_spec].
  - rewrite Hs. rewrite clickTile_spec, Hw, Hm. cbv zeta.
    unfold lastRoundOf in Hl. rewrite bool_decide_eq_true_2 by done.
    unfold_ops; repeat case_bool_decide; cbn; by rewrite last_snoc.
  - rewrite timers_clickTile, Hm.
    unfold lastRoundOf in Hl. rewrite bool_decide_eq_true_2 by done.
    apply last_two.
Qed.

Lemma last_round_outcome_witness :
  let g' := TicTacToe.clickTile 6 Sample.lastRound in
  score g' = Score.mk 1 2 ∧
  ∃ result,
    last (shown g') = Some (GameOutcome result) ∧
    (result = GameTied ↔ Score.o (score g') = Score.x (score g')) ∧
    (result = GameWonByPlayer ↔ (Score.o (score g') > Score.x (score g'))%Z) ∧
    (result = GameWonByComputer ↔ (Score.x (score g') > Score.o (score g'))%Z) ∧
    last (timers g') = Some ResetMatch.
Proof.
  apply (last_round_outcome 6 Sample.lastRound); [reflexivity|].
  unfold lastRoundOf. vm_compute. reflexivity.
Defined.

(** ** Runs of the event loop *)

Lemma playComputer_moves g :
  chained g (computerMove g) ∧
  DOMDisplay.playComputer TicTacToe.clickTile g = afterMoves g (computerMove g).
Proof.
  unfold DOMDisplay.playComputer, computerMove, afterMoves.
  by destruct (DOMDisplay.getPlayableTile g).
Qed.

(** [moves] lists the calls of [clickTile] that [step] makes: the state
    after the event is the state after these calls, made one after the other
    from the state in which the first is made. *)
Lemma step_moves e g :
  ∃ g0, chained g0 (moves e g) ∧ step e g = afterMoves g0 (moves e g).
Proof.
  destruct e as [i|d| |k]; cbn [step moves].
  - unfold DOMDisplay.tileListener.
    destruct (tiles g !! i) as [tile|]; [|by exists g].
    destruct (_ || _); [by exists g|].
    exists g. destruct (playComputer_moves (TicTacToe.clickTile i g)) as [Hc He].
    split; [done|]. by rewrite He.
  - eexists. unfold TicTacToe.difficultyListener, DOMDisplay.selectGameMode.
    apply playComputer_moves.
  - by exists (TicTacToe.resetGame g).
  - destruct (timers g !! k) as [[| |]|]; cbn [runTimer]; try by eexists.
    unfold TicTacToe.nextRound, DOMDisplay.startWithDifficulty.
    cbv zeta.
    destruct (DOMDisplay.getCurrentDifficulty _) as [d|]; [|by eexists].
    case_bool_decide; [by eexists|].
    eexists. unfold DOMDisplay.selectGameMode. apply playComputer_moves.
Qed.

Lemma round_playComputer g :
  round (DOMDisplay.playComputer TicTacToe.clickTile g) = round g.
Proof.
  unfold DOMDisplay.playComputer.
  destruct (DOMDisplay.getPlayableTile g); [apply round_clickTile|done].
Qed.

Lemma round_tileListener i g :
  round (DOMDisplay.tileListener TicTacToe.clickTile i g) = round g.
Proof.
  unfold DOMDisplay.tileListener.
  destruct (tiles g !! i); [|done]. destruct (_ || _); [done|].
  by rewrite round_playComputer, round_clickTile.
Qed.

Lemma round_nextRound g : round (TicTacToe.nextRound g) = (round g + 1)%Z.
Proof.
  unfold TicTacToe.nextRound, DOMDisplay.startWithDifficulty.
  destruct (DOMDisplay.getCurrentDifficulty _); [|done].
  case_bool_decide; [done|].
  unfold DOMDisplay.selectGameMode. by rewrite round_playComputer.
Qed.

(** The round counter after an event. *)
Lemma round_step e g :
  round (step e g) =
  match e with
  | TileClicked _ => round g
  | DifficultyClicked _ | NewGameClicked => 1%Z
  | TimerFired k =>
      match timers g !! k with
      | Some NextRound => (round g + 1)%Z
      | Some ResetMatch => 1%Z
      | _ => round g
      end
  end.
Proof.
  destruct e as [i|d| |k]; cbn [step].
  - apply round_tileListener.
  - unfold TicTacToe.difficultyListener, DOMDisplay.selectGameMode.
    by rewrite round_playComputer.
  - done.
  - destruct (timers g !! k) as [[| |]|]; cbn [runTimer]; try done.
    by rewrite round_nextRound.
Qed.

Lemma timers_playComputer g t :
  t ∈ timers (DOMDisplay.playComputer TicTacToe.clickTile g) →
  t ∈ timers g ∨ ∃ m, m ∈ computerMove g ∧ winningMove m = true.
Proof.
  unfold DOMDisplay.playComputer, computerMove.
  destruct (DOMDisplay.getPlayableTile g) as [j|]; [|by left].
  rewrite timers_clickTile.
  destruct (winningMove (j, g)) eqn:Hm; [|by left].
  intros _. right. exists (j, g). split; [by left|done].
Qed.

(** A timer pending after an event was pending before it or was scheduled
    by a winning move of the event. *)
Lemma timers_step e g t :
  t ∈ timers (step e g) →
  t ∈ timers g ∨ ∃ m, m ∈ moves e g ∧ winningMove m = true.
Proof.
  destruct e as [i|d| |k]; cbn [step moves].
  - unfold DOMDisplay.tileListener.
    destruct (tiles g !! i) as [tile|]; [|by left].
    destruct (_ || _); [by left|].
    intros [Ht|(m & Hin & Hm)]%timers_playComputer.
    + rewrite timers_clickTile in Ht.
      destruct (winningMove (i, g)) eqn:Hm; [|by left].
      right. exists (i, g). split; [by left|done].
    + right. exists m. split; [by right|done].
  - unfold TicTacToe.difficultyListener, DOMDisplay.selectGameMode.
    intros [Ht|Hm]%timers_playComputer; [by left|by right].
  - by left.
  - destruct (timers g !! k) as [[| |]|] eqn:Hk; cbn [runTimer]; try by left.
    + cbn. intros ?%list_elem_of_delete_inv. by left.
    + cbn. intros ?%list_elem_of_delete_inv. by left.
    + unfold TicTacToe.nextRound, DOMDisplay.startWithDifficulty. cbv zeta.
      destruct (DOMDisplay.getCurrentDifficulty _) as [d|].
      * case_bool_decide.
        -- cbn. intros ?%list_elem_of_delete_inv. by left.
        -- unfold DOMDisplay.selectGameMode.
           intros [Ht|Hm]%timers_playComputer; [|by right].
           cbn in Ht. apply list_elem_of_delete_inv in Ht. by left.
      * cbn. intros ?%list_elem_of_delete_inv. by left.
Qed.

Lemma run_snoc es e g : run (es ++ [e]) g = step e (run es g).
Proof. unfold run. by rewrite foldl_snoc. Qed.

Lemma wonBefore_snoc es e : wonBefore es → wonBefore (es ++ [e]).
Proof.
  intros (pre & e' & post & m & -> & Hin & Hm).
  exists pre, e', (post ++ [e]), m. split; [|done].
  by rewrite <- app_assoc.
Qed.

(** Along every run the round counter is at least 1, and a pending
    next-round callback was scheduled by a winning move of the run. *)
Lemma run_invariant es :
  let g := run es TicTacToe.startGame in
  (1 ≤ round g)%Z ∧ (NextRound ∈ timers g → wonBefore es).
Proof.
  induction es as [|e es IH] using rev_ind; cbv zeta.
  - split; [by vm_compute|]. cbn. by intros ?%elem_of_nil.
  - rewrite run_snoc. destruct IH as [Hr Hn]. split.
    + rewrite round_step. destruct e as [i|d| |k]; try lia.
      destruct (timers _ !! k) as [[| |]|]; lia.
    + intros [Ht|(m & Hin & Hm)]%timers_step.
      * by apply wonBefore_snoc, Hn.
      * exists es, e, [], m. done.
Qed.

(** C7.  Along every run from the start of the program: a call of
    [clickTile] that is not a winning move leaves the round counter as it
    is, and so does a click on a tile; an event after which the counter is
    larger is the firing of the next-round callback, it adds exactly one,
    and an earlier event of the run made a winning move. *)
Theorem round_increases_only_after_winning_move (es : list Event) (e : Event) :
  let g := run es TicTacToe.startGame in
  (∀ i s, winningMove (i, s) = false →
          round (TicTacToe.clickTile i s) = round s) ∧
  (∀ i, round (step (TileClicked i) g) = round g) ∧
  ((round g < round (step e g))%Z →
   (∃ k, e = TimerFired k ∧ timers g !! k = Some NextRound) ∧
   round (step e g) = (round g + 1)%Z ∧
   wonBefore es).
Proof.
  cbv zeta. destruct (run_invariant es) as [Hr Hn]. split_and!.
  - intros i s _. apply round_clickTile.
  - intros i. by rewrite round_step.
  - rewrite round_step. destruct e as [i|d| |k]; try lia.
    destruct (timers _ !! k) as [[| |]|] eqn:Hk; try lia.
    intros _. split_and!; [by exists k|done|].
    apply Hn. apply list_elem_of_lookup. by exists k.
Qed.

Lemma round_increases_only_after_winning_move_witness :
  let es := [DifficultyClicked 3; TileClicked 4; TileClicked 2; TileClicked 6] in
  let g := run es TicTacToe.startGame in
  round g = 1%Z ∧
  round (step (TimerFired 1) g) = 2%Z ∧
  round (TicTacToe.clickTile 2 Sample.opening) = round Sample.opening ∧
  wonBefore es.
Proof.
  cbv zeta.
  destruct (round_increases_only_after_winning_move
              [DifficultyClicked 3; TileClicked 4; TileClicked 2; TileClicked 6]
              (TimerFired 1)) as (Hmove & _ & Hgrow).
  split; [reflexivity|]. split; [reflexivity|]. split.
  - apply Hmove. reflexivity.
  - apply Hgrow. vm_compute. reflexivity.
Defined.

(** ** Reachable states are well formed *)

Lemma wellFormed_playComputer g :
  wellFormed g → wellFormed (DOMDisplay.playComputer TicTacToe.clickTile g).
Proof.
  intros H. unfold DOMDisplay.playComputer.
  destruct (DOMDisplay.getPlayableTile g); [by apply wellFormed_clickTile|done].
Qed.

Lemma wellFormed_reset (g' : Game) :
  players g' = initialPlayers → currentPlayer g' = "Computer" → round g' = 1%Z →
  wellFormed g'.
Proof. intros Hp Hc Hr. split_and!; [done|by left|lia]. Qed.

Lemma wellFormed_step e g : wellFormed g → wellFormed (step e g).
Proof.
  intros Hwf. destruct e as [i|d| |k]; cbn [step].
  - unfold DOMDisplay.tileListener.
    destruct (tiles g !! i); [|done]. destruct (_ || _); [done|].
    by apply wellFormed_playComputer, wellFormed_clickTile.
  - unfold TicTacToe.difficultyListener, DOMDisplay.selectGameMode.
    apply wellFormed_playComputer. by apply wellFormed_reset.
  - by apply wellFormed_reset.
  - destruct (timers g !! k) as [[| |]|]; cbn [runTimer]; try done.
    + by apply wellFormed_reset.
    + destruct Hwf as (Hp & Hc & Hr).
      unfold TicTacToe.nextRound, DOMDisplay.startWithDifficulty.
      assert (wellFormed (TicTacToe.roundAdvanced
                (set_timers (delete k (timers g)) g))) as Hwf'.
      { split_and!; [done|done|cbn; lia]. }
      destruct (DOMDisplay.getCurrentDifficulty _); [|done].
      case_bool_decide; [done|].
      unfold DOMDisplay.selectGameMode. by apply wellFormed_playComputer.
Qed.

Lemma run_wellFormed es : wellFormed (run es TicTacToe.startGame).
Proof.
  induction es as [|e es IH] using rev_ind.
  - by apply wellFormed_reset.
  - rewrite run_snoc. by apply wellFormed_step.
Qed.

(** * Further properties of the engine *)

(** ** The board *)

Lemma createTiles_length n :
  Z.of_nat (length (DOMDisplay.createTiles n)) = Z.max 0 n.
Proof. unfold DOMDisplay.createTiles. rewrite length_map, length_seq. lia. Qed.

Lemma createTiles_lookup n i tile :
  DOMDisplay.createTiles n !! i = Some tile →
  tile = mkTile (Some (Z.of_nat i + 1)%Z) None.
Proof.
  unfold DOMDisplay.createTiles. rewrite list_lookup_fmap.
  destruct (seq 0 (Z.to_nat n) !! i) as [j|] eqn:Hj; [|done].
  apply lookup_seq in Hj as [-> _]. by intros [= <-].
Qed.

Lemma fresh_tiles_unowned d g :
  Forall (fun tile => owned tile = None) (tiles (DOMDisplay.printGameBoard d g)).
Proof.
  apply Forall_lookup. intros i tile Hl.
  by rewrite (createTiles_lookup _ _ _ Hl).
Qed.

(** X1.  [printGameBoard] replaces whatever tiles there were by the square
    of [gameMode] many tiles, numbered from 1 by position and all unowned,
    and touches nothing else. *)
Theorem printGameBoard_fresh (gameMode : Z) (g : Game) :
  let g' := DOMDisplay.printGameBoard gameMode g in
  Z.of_nat (length (tiles g')) = (gameMode * gameMode)%Z ∧
  numbered (tiles g') ∧
  Forall (fun tile => owned tile = None) (tiles g') ∧
  set_tiles (tiles g) g' = g.
Proof.
  cbv zeta. unfold DOMDisplay.printGameBoard. cbn [tiles set_tiles].
  split_and!.
  - rewrite createTiles_length. nia.
  - intros i tile Hl. by rewrite (createTiles_lookup _ _ _ Hl).
  - apply Forall_lookup. intros i tile Hl.
    by rewrite (createTiles_lookup _ _ _ Hl).
  - by destruct g.
Qed.

Lemma numbered_alter ts i f :
  (∀ tile, tileIndex (f tile) = tileIndex tile) →
  numbered ts → numbered (alter f i ts).
Proof.
  intros Hf Hn j tile.
  destruct (decide (i = j)) as [->|Hne].
  - rewrite list_lookup_alter_eq.
    destruct (ts !! j) as [t|] eqn:Ht; [|done].
    cbn. intros [= <-]. rewrite Hf. by apply Hn.
  - rewrite list_lookup_alter_ne by done. apply Hn.
Qed.

Lemma boardInvariant_clickTile i g :
  boardInvariant g → boardInvariant (TicTacToe.clickTile i g).
Proof.
  intros (Hn & Hm & Hd). unfold boardInvariant.
  rewrite tiles_clickTile, difficulty_clickTile.
  destruct (winner g); [done|].
  unfold TicTacToe.markTile. cbn [tiles set_tiles]. split_and!.
  - by apply numbered_alter.
  - apply Forall_alter; [done|]. intros tile _ _. unfold markedOrFree, TicTacToe.marker.
    cbn. case_bool_decide; auto.
  - destruct Hd as [Hd|(d & Hd & Hl)].
    + left. by rewrite Hd.
    + right. exists d. by rewrite length_alter.
Qed.

Lemma boardInvariant_playComputer g :
  boardInvariant g → boardInvariant (DOMDisplay.playComputer TicTacToe.clickTile g).
Proof.
  intros H. unfold DOMDisplay.playComputer.
  destruct (DOMDisplay.getPlayableTile g); [by apply boardInvariant_clickTile|done].
Qed.

Lemma boardInvariant_printGameBoard d g :
  difficulty g = Some d → boardInvariant (DOMDisplay.printGameBoard d g).
Proof.
  intros Hd. split_and!.
  - intros i tile Hl. by rewrite (createTiles_lookup _ _ _ Hl).
  - eapply Forall_impl; [apply fresh_tiles_unowned|]. intros tile Ho. by left.
  - right. exists d. split; [done|]. cbn. rewrite createTiles_length. nia.
Qed.

Lemma boardInvariant_empty g : tiles g = [] → boardInvariant g.
Proof.
  intros Ht. unfold boardInvariant. rewrite Ht.
  split_and!; [by intros i tile ?|constructor|by left].
Qed.

Lemma boardInvariant_step e g : boardInvariant g → boardInvariant (step e g).
Proof.
  intros Hb. destruct e as [i|d| |k]; cbn [step].
  - unfold DOMDisplay.tileListener.
    destruct (tiles g !! i); [|done]. destruct (_ || _); [done|].
    by apply boardInvariant_playComputer, boardInvariant_clickTile.
  - unfold TicTacToe.difficultyListener, DOMDisplay.selectGameMode.
    by apply boardInvariant_playComputer, boardInvariant_printGameBoard.
  - by apply boardInvariant_empty.
  - destruct (timers g !! k) as [[| |]|]; cbn [runTimer]; try done.
    + by apply boardInvariant_empty.
    + by apply boardInvariant_empty.
    + unfold TicTacToe.nextRound, DOMDisplay.startWithDifficulty,
        DOMDisplay.getCurrentDifficulty.
      destruct (difficulty _) as [d|] eqn:Hd; [|done].
      case_bool_decide; [done|].
      unfold DOMDisplay.selectGameMode.
      by apply boardInvariant_playComputer, boardInvariant_printGameBoard.
Qed.

(** X2.  Along every run from the start of the program the board keeps its
    shape: tiles numbered from 1 by position, each unowned or marked "X" or
    "O", and a board that has tiles has the square of the selected
    difficulty many (so there are no tiles without a selected difficulty). *)
Theorem run_board_invariant (es : list Event) :
  boardInvariant (run es TicTacToe.startGame).
Proof.
  induction es as [|e es IH] using rev_ind.
  - by apply boardInvariant_empty.
  - rewrite run_snoc. by apply boardInvariant_step.
Qed.

(** ** The index sets of the win check *)

Lemma ownedTiles_omap ts :
  DOMDisplay.ownedTiles ts = (omap (indexIfOwnedBy "X") ts, omap (indexIfOwnedBy "O") ts).
Proof.
  induction ts as [|t ts IH]; [done|]. cbn. rewrite IH.
  unfold indexIfOwnedBy.
  destruct (owned t) as [w|], (tileIndex t) as [idx|]; try done.
  repeat case_bool_decide; subst; done.
Qed.

Lemma indexIfOwnedBy_Some w tile a :
  indexIfOwnedBy w tile = Some a ↔
  owned tile = Some w ∧ tileIndex tile = Some (a + 1)%Z.
Proof.
  unfold indexIfOwnedBy.
  destruct (owned tile) as [o|], (tileIndex tile) as [idx|];
    [|split; [done|by intros [_ ?]]|split; [done|by intros [? _]]
     |split; [done|by intros [? _]]].
  case_bool_decide as Ho; split.
  - intros [= <-]. split; [by subst|]. f_equal. lia.
  - intros [_ [= ->]]. f_equal. lia.
  - done.
  - intros [[= ->] _]. done.
Qed.

Lemma ownedTiles_x ts a :
  a ∈ (DOMDisplay.ownedTiles ts).1 ↔
  ∃ tile, tile ∈ ts ∧ owned tile = Some "X" ∧ tileIndex tile = Some (a + 1)%Z.
Proof.
  rewrite ownedTiles_omap. cbn. rewrite list_elem_of_omap.
  by setoid_rewrite indexIfOwnedBy_Some.
Qed.

Lemma ownedTiles_o ts a :
  a ∈ (DOMDisplay.ownedTiles ts).2 ↔
  ∃ tile, tile ∈ ts ∧ owned tile = Some "O" ∧ tileIndex tile = Some (a + 1)%Z.
Proof.
  rewrite ownedTiles_omap. cbn. rewrite list_elem_of_omap.
  by setoid_rewrite indexIfOwnedBy_Some.
Qed.

Lemma numbered_index w ts a :
  numbered ts →
  a ∈ omap (indexIfOwnedBy w) ts ↔
  (0 ≤ a)%Z ∧ owned <$> ts !! Z.to_nat a = Some (Some w).
Proof.
  intros Hn. rewrite list_elem_of_omap. setoid_rewrite indexIfOwnedBy_Some. split.
  - intros (tile & [i Hi]%list_elem_of_lookup & Ho & Hidx).
    rewrite (Hn i tile Hi) in Hidx. injection Hidx as Hidx.
    assert (a = Z.of_nat i) as -> by lia.
    split; [lia|]. by rewrite Nat2Z.id, Hi, <- Ho.
  - intros [Ha Hl]. destruct (ts !! Z.to_nat a) as [tile|] eqn:Hi; [|done].
    injection Hl as Hl. exists tile. split_and!; [|done|].
    + apply list_elem_of_lookup. by exists (Z.to_nat a).
    + rewrite (Hn _ _ Hi). f_equal. lia.
Qed.

Lemma index_sets_numbered (g : Game) :
  numbered (tiles g) →
  (∀ a, a ∈ xTiles g ↔
        (0 ≤ a)%Z ∧ owned <$> tiles g !! Z.to_nat a = Some (Some "X")) ∧
  (∀ a, a ∈ oTiles g ↔
        (0 ≤ a)%Z ∧ owned <$> tiles g !! Z.to_nat a = Some (Some "O")) ∧
  (∀ a, a ∈ xTiles g → a ∉ oTiles g).
Proof.
  intros Hn. unfold xTiles, oTiles. rewrite ownedTiles_omap. cbn [fst snd].
  split_and!.
  - intros a. by apply numbered_index.
  - intros a. by apply numbered_index.
  - intros a [_ Hx]%numbered_index [_ Ho]%numbered_index; [|done..].
    rewrite Hx in Ho. discriminate Ho.
Qed.

(** X3.  On a board numbered by position the index sets of the win check
    are the positions (from 0) of the tiles marked "X" and of the tiles
    marked "O"; no index is in both. *)
Theorem owned_index_sets (g : Game) :
  numbered (tiles g) →
  (∀ a, a ∈ xTiles g ↔
        (0 ≤ a)%Z ∧ owned <$> tiles g !! Z.to_nat a = Some (Some "X")) ∧
  (∀ a, a ∈ oTiles g ↔
        (0 ≤ a)%Z ∧ owned <$> tiles g !! Z.to_nat a = Some (Some "O")) ∧
  (∀ a, a ∈ xTiles g → a ∉ oTiles g).
Proof. apply index_sets_numbered. Qed.

Lemma playerToWin_numbered : numbered (tiles Sample.playerToWin).
Proof.
  assert (Ht : tiles Sample.playerToWin =
    [ mkTile (Some 1%Z) (Some "X"); mkTile (Some 2%Z) (Some "X");
      mkTile (Some 3%Z) (Some "O"); mkTile (Some 4%Z) (Some "X");
      mkTile (Some 5%Z) (Some "O"); mkTile (Some 6%Z) None;
      mkTile (Some 7%Z) None; mkTile (Some 8%Z) None; mkTile (Some 9%Z) None ])
    by (vm_compute; reflexivity).
  rewrite Ht. intros i tile Hl.
  do 9 (destruct i as [|i]; [injection Hl as <-; reflexivity|]).
  discriminate Hl.
Defined.

Lemma owned_index_sets_witness :
  let g := Sample.playerToWin in
  (∀ a, a ∈ xTiles g ↔
        (0 ≤ a)%Z ∧ owned <$> tiles g !! Z.to_nat a = Some (Some "X")) ∧
  (∀ a, a ∈ oTiles g ↔
        (0 ≤ a)%Z ∧ owned <$> tiles g !! Z.to_nat a = Some (Some "O")) ∧
  (∀ a, a ∈ xTiles g → a ∉ oTiles g).
Proof.
  apply (owned_index_sets Sample.playerToWin). exact playerToWin_numbered.
Defined.

Lemma ownsLine_disjoint (mine theirs arr : list Z) :
  (∀ a, a ∈ mine → a ∉ theirs) →
  ownsLine mine theirs arr ↔ Forall (fun a => a ∈ mine) arr.
Proof.
  intros Hd. unfold ownsLine. rewrite !Forall_forall. naive_solver.
Qed.

Lemma gameWin5_cases arr :
  arr ∈ DOMDisplay.gameWin 5 → arr ∈ Grid.lines 5 ∨ 25%Z ∈ arr.
Proof.
  change (DOMDisplay.gameWin 5) with DOMDisplay.game5Wins.
  unfold DOMDisplay.game5Wins. intros Hin.
  repeat (apply elem_of_cons in Hin as [->|Hin]);
    try (left; apply (bool_decide_unpack _); by vm_compute);
    try (right; apply (bool_decide_unpack _); by vm_compute).
  by apply elem_of_nil in Hin.
Qed.

Lemma grid5_in_table arr : arr ∈ Grid.lines 5 → arr ∈ DOMDisplay.gameWin 5.
Proof.
  assert (Hl : Grid.lines 5 =
    [ [0; 1; 2; 3; 4]; [5; 6; 7; 8; 9]; [10; 11; 12; 13; 14];
      [15; 16; 17; 18; 19]; [20; 21; 22; 23; 24];
      [0; 5; 10; 15; 20]; [1; 6; 11; 16; 21]; [2; 7; 12; 17; 22];
      [3; 8; 13; 18; 23]; [4; 9; 14; 19; 24];
      [0; 6; 12; 18; 24]; [4; 8; 12; 16; 20] ]%Z) by by vm_compute.
  rewrite Hl. intros Hin.
  repeat (apply elem_of_cons in Hin as [->|Hin]);
    try (apply (bool_decide_unpack _); by vm_compute).
  by apply elem_of_nil in Hin.
Qed.

(** X4.  On a board of 3 by 3 or 5 by 5 tiles numbered by position the win
    check returns [true] exactly when some row, column or diagonal of the
    grid has all its tiles marked "X" or all its tiles marked "O": the two
    entries of the 5 by 5 table that name the index 25 never match. *)
Theorem checkWinner_grid_lines (N : Z) (p : string) (r : Z) (g : Game) :
  N = 3%Z ∨ N = 5%Z →
  numbered (tiles g) →
  Z.of_nat (length (tiles g)) = (N * N)%Z →
  fst (DOMDisplay.checkWinner N p r g) = true ↔
  ∃ arr, arr ∈ Grid.lines N ∧
         (Forall (fun a => a ∈ xTiles g) arr ∨ Forall (fun a => a ∈ oTiles g) arr).
Proof.
  intros HN Hn Hlen. destruct (index_sets_numbered g Hn) as (Hx & Ho & Hd).
  assert (Hd' : ∀ a, a ∈ oTiles g → a ∉ xTiles g) by (intros a H1 H2; by apply (Hd a)).
  rewrite checkWinner_true_iff.
  setoid_rewrite (ownsLine_disjoint _ _ _ Hd).
  setoid_rewrite (ownsLine_disjoint _ _ _ Hd').
  destruct HN as [-> | ->].
  - by change (DOMDisplay.gameWin 3) with (Grid.lines 3).
  - assert (Hrange : ∀ a, a ∈ xTiles g ∨ a ∈ oTiles g → a ≠ 25%Z).
    { intros a Ha ->.
      assert (is_Some (tiles g !! Z.to_nat 25)) as [tile Ht%lookup_lt_Some].
      { destruct Ha as [[_ Ha]%Hx|[_ Ha]%Ho];
          destruct (tiles g !! Z.to_nat 25); by eauto. }
      lia. }
    split; intros (arr & Hin & Hown).
    + exists arr. split; [|done].
      destruct (gameWin5_cases arr Hin) as [?|H25]; [done|]. exfalso.
      destruct Hown as [Hown|Hown]; rewrite Forall_forall in Hown;
        apply (Hrange 25%Z); auto.
    + exists arr. split; [by apply grid5_in_table|done].
Qed.

Lemma checkWinner_grid_lines_witness :
  let g := Sample.playerToWin in
  fst (DOMDisplay.checkWinner 3 "Player" 1 g) = true ↔
  ∃ arr, arr ∈ Grid.lines 3 ∧
         (Forall (fun a => a ∈ xTiles g) arr ∨ Forall (fun a => a ∈ oTiles g) arr).
Proof.
  apply (checkWinner_grid_lines 3 "Player" 1 Sample.playerToWin).
  - left. reflexivity.
  - exact playerToWin_numbered.
  - vm_compute. reflexivity.
Defined.

Lemma table_line_head gameMode arr :
  arr ∈ DOMDisplay.gameWin gameMode → ∃ a, a ∈ arr.
Proof.
  unfold DOMDisplay.gameWin, DOMDisplay.game3Wins, DOMDisplay.game4Wins,
    DOMDisplay.game5Wins.
  repeat case_bool_decide; intros Hin;
    repeat (apply elem_of_cons in Hin as [->|Hin]);
    try (by apply elem_of_nil in Hin); eexists; by left.
Qed.

Lemma checkWinner_false gameMode p r g :
  fst (DOMDisplay.checkWinner gameMode p r g) = false →
  DOMDisplay.checkWinner gameMode p r g = (false, g).
Proof.
  rewrite checkWinner_unfold. by destruct (DOMDisplay.winningLine _ _ _).
Qed.

Lemma winningLine_unowned gameMode g :
  Forall (fun tile => ¬ isOwned tile) (tiles g) →
  DOMDisplay.winningLine (xTiles g) (oTiles g) (DOMDisplay.gameWin gameMode) = None.
Proof.
  intros Hfree.
  destruct (DOMDisplay.winningLine _ _ _) as [arr|] eqn:E; [exfalso|done].
  apply winningLine_Some in E as (Hin & Hown).
  destruct (table_line_head _ _ Hin) as [a Ha].
  rewrite Forall_forall in Hfree.
  destruct Hown as [Hown|Hown]; unfold ownsLine in Hown;
    rewrite Forall_forall in Hown; destruct (Hown a Ha) as [Hmine _].
  - apply ownedTiles_x in Hmine as (tile & Ht & Ho & _).
    apply (Hfree tile Ht). unfold isOwned. by rewrite Ho.
  - apply ownedTiles_o in Hmine as (tile & Ht & Ho & _).
    apply (Hfree tile Ht). unfold isOwned. by rewrite Ho.
Qed.

(** X5.  On a board without an owned tile the win check returns [false]
    for every board size, writes nothing and schedules nothing: every line
    of every table names at least one index. *)
Theorem checkWinner_unowned_board (gameMode : Z) (p : string) (r : Z) (g : Game) :
  Forall (fun tile => ¬ isOwned tile) (tiles g) →
  DOMDisplay.checkWinner gameMode p r g = (false, g).
Proof.
  intros Hfree. by rewrite checkWinner_unfold, winningLine_unowned.
Qed.

Lemma checkWinner_unowned_board_witness :
  let g := DOMDisplay.printGameBoard 4 TicTacToe.startGame in
  DOMDisplay.checkWinner 4 "Computer" 1 g = (false, g).
Proof.
  apply (checkWinner_unowned_board 4 "Computer" 1
           (DOMDisplay.printGameBoard 4 TicTacToe.startGame)).
  apply (bool_decide_unpack _). vm_compute. exact I.
Defined.

(** ** The computer's choice *)

Lemma playableLoop_range ts i cur k :
  DOMDisplay.playableLoop ts i cur = Some k →
  (ts = [] ∧ cur = Some k) ∨ (i ≤ k < i + length ts).
Proof.
  revert i cur. induction ts as [|t ts IH]; intros i cur; cbn.
  - intros ->. by left.
  - destruct (truthy (owned t)).
    + intros [[-> [= <-]]|H]%IH; right; cbn; lia.
    + intros [= <-]. right. lia.
Qed.

Lemma playableLoop_started ts i c :
  is_Some (DOMDisplay.playableLoop ts i (Some c)).
Proof.
  revert i c. induction ts as [|t ts IH]; intros i c; cbn; [by eexists|].
  destruct (truthy (owned t)); [apply IH|by eexists].
Qed.

(** X6.  [getPlayableTile] returns [undefined] exactly on a board without
    tiles, and otherwise the position of a tile of the board. *)
Theorem getPlayableTile_range (g : Game) :
  (DOMDisplay.getPlayableTile g = None ↔ tiles g = []) ∧
  (∀ k, DOMDisplay.getPlayableTile g = Some k → k < length (tiles g)).
Proof.
  unfold DOMDisplay.getPlayableTile. split.
  - destruct (tiles g) as [|t ts]; [done|]. split; [|done].
    cbn. destruct (truthy (owned t)); [|done].
    intros E. by destruct (playableLoop_started ts 1 0) as [k Hk]; simplify_eq.
  - intros k [[_ ?]|?]%playableLoop_range; [done|lia].
Qed.

Lemma getPlayableTile_range_witness :
  5 < length (tiles Sample.playerToWin).
Proof.
  exact (proj2 (getPlayableTile_range Sample.playerToWin) 5 eq_refl).
Defined.

(** ** What a move changes *)

Lemma winningMove_accepted i g : winningMove (i, g) = true → winner g = false.
Proof. unfold winningMove. by destruct (winner g). Qed.

Lemma score_clickTile i g :
  score (TicTacToe.clickTile i g) =
  if winningMove (i, g) then score (TicTacToe.increaseScore g) else score g.
Proof.
  click_cases i g.
  - unfold winningMove. by rewrite Heqb.
  - unfold_ops; repeat case_bool_decide; by cbn.
  - unfold_ops; repeat case_bool_decide; by cbn.
  - done.
Qed.

Lemma shown_clickTile i g :
  shown (TicTacToe.clickTile i g) =
  if winningMove (i, g)
  then shown g ++
       [RoundWinnerMessage (round g) (currentPlayer g);
        ScoreUpdated (currentPlayer g)
                     (scoreOf (currentPlayer g) (score g) + 1)%Z (round g + 1)%Z] ++
       (if bool_decide (lastRoundOf g)
        then [GameOutcome (DOMDisplay.outcomeOf (score (TicTacToe.increaseScore g)))]
        else [])
  else shown g.
Proof.
  unfold lastRoundOf, scoreOf, DOMDisplay.getCurrentDifficulty.
  click_cases i g.
  - unfold winningMove. by rewrite Heqb.
  - unfold_ops; repeat case_bool_decide; try done; cbn;
      rewrite <- ?app_assoc; cbn; repeat f_equal; lia.
  - unfold_ops; repeat case_bool_decide; try done; cbn;
      rewrite <- ?app_assoc; cbn; repeat f_equal; lia.
  - done.
Qed.

Lemma currentPlayer_clickTile_no_win i g :
  winner g = false → winningMove (i, g) = false →
  currentPlayer (TicTacToe.clickTile i g) = currentPlayer (TicTacToe.switchPlayer g).
Proof. intros Hw Hm. by rewrite clickTile_spec, Hw, Hm. Qed.

(** X7.  A winning move adds exactly one to the score of the player who
    made it and leaves the other score alone; a move that does not win, or
    is rejected, leaves both scores as they are. *)
Theorem score_after_move (i : nat) (g : Game) :
  let g' := TicTacToe.clickTile i g in
  (winningMove (i, g) = true →
   scoreOf (currentPlayer g) (score g') =
     (scoreOf (currentPlayer g) (score g) + 1)%Z ∧
   (Score.x (score g') + Score.o (score g') =
    Score.x (score g) + Score.o (score g) + 1)%Z ∧
   (Score.x (score g) ≤ Score.x (score g'))%Z ∧
   (Score.o (score g) ≤ Score.o (score g'))%Z) ∧
  (winningMove (i, g) = false → score g' = score g).
Proof.
  cbv zeta. rewrite score_clickTile. split; intros ->; [|done].
  unfold scoreOf, TicTacToe.increaseScore.
  case_bool_decide; cbn; lia.
Qed.

Lemma score_after_move_witness :
  let g := Sample.playerToWin in
  let g' := TicTacToe.clickTile 6 g in
  scoreOf (currentPlayer g) (score g') =
    (scoreOf (currentPlayer g) (score g) + 1)%Z ∧
  (Score.x (score g') + Score.o (score g') =
   Score.x (score g) + Score.o (score g) + 1)%Z ∧
  (Score.x (score g) ≤ Score.x (score g'))%Z ∧
  (Score.o (score g) ≤ Score.o (score g'))%Z.
Proof.
  exact (proj1 (score_after_move 6 Sample.playerToWin) eq_refl).
Defined.

(** X8.  A winning move sets the winner flag and schedules two callbacks,
    in this order: the one that hides the board and then the match reset
    (last round) or the next round (earlier round).  Any other call of
    [clickTile] schedules nothing and leaves the flag as it is. *)
Theorem callbacks_after_move (i : nat) (g : Game) :
  let g' := TicTacToe.clickTile i g in
  timers g' =
    timers g ++
    (if winningMove (i, g)
     then [HideBoard; if bool_decide (lastRoundOf g) then ResetMatch else NextRound]
     else []) ∧
  winner g' = winner g || winningMove (i, g).
Proof.
  cbv zeta. rewrite timers_clickTile, winner_clickTile. split; [|done].
  destruct (winningMove (i, g)); [done|by rewrite app_nil_r].
Qed.

(** X9.  With a selected difficulty other than 3, 4 and 5, or with none
    selected, no move ever wins: the winner flag, the timers, the scores and
    the round are left as they are by every call of [clickTile]. *)
Theorem no_win_at_unsupported_difficulty (i : nat) (g : Game) :
  default 0%Z (DOMDisplay.getCurrentDifficulty g) ≠ 3%Z →
  default 0%Z (DOMDisplay.getCurrentDifficulty g) ≠ 4%Z →
  default 0%Z (DOMDisplay.getCurrentDifficulty g) ≠ 5%Z →
  let g' := TicTacToe.clickTile i g in
  winningMove (i, g) = false ∧
  winner g' = winner g ∧ timers g' = timers g ∧ score g' = score g ∧
  round g' = round g ∧ shown g' = shown g.
Proof.
  intros H3 H4 H5. cbv zeta.
  assert (Hm : winningMove (i, g) = false).
  { unfold winningMove, TicTacToe.checkWinner.
    change (DOMDisplay.getCurrentDifficulty (TicTacToe.markTile i g))
      with (DOMDisplay.getCurrentDifficulty g).
    rewrite checkWinner_unfold. unfold DOMDisplay.gameWin.
    rewrite !bool_decide_eq_false_2 by done. cbn. by rewrite andb_false_r. }
  rewrite winner_clickTile, timers_clickTile, score_clickTile, round_clickTile,
    shown_clickTile, Hm.
  split_and!; try done. by rewrite orb_false_r.
Qed.

Lemma no_win_at_unsupported_difficulty_witness :
  let g := DOMDisplay.printGameBoard 2 (set_difficulty (Some 2%Z) TicTacToe.startGame) in
  let g' := TicTacToe.clickTile 0 g in
  winningMove (0, g) = false ∧
  winner g' = winner g ∧ timers g' = timers g ∧ score g' = score g ∧
  round g' = round g ∧ shown g' = shown g.
Proof.
  apply (no_win_at_unsupported_difficulty 0
           (DOMDisplay.printGameBoard 2
              (set_difficulty (Some 2%Z) TicTacToe.startGame)));
    vm_compute; intros H; discriminate H.
Defined.

(** X10.  A call of [clickTile] changes at most the tile it is called on:
    the number of tiles, every other tile and the number of every tile stay
    as they are, and no tile that was owned becomes unowned.  An accepted
    call leaves the tile marked for the current player, whoever owned it. *)
Theorem clickTile_frame (i : nat) (g : Game) :
  let g' := TicTacToe.clickTile i g in
  length (tiles g') = length (tiles g) ∧
  (∀ j, j ≠ i → tiles g' !! j = tiles g !! j) ∧
  (∀ j tile, tiles g !! j = Some tile →
     ∃ tile', tiles g' !! j = Some tile' ∧
              tileIndex tile' = tileIndex tile ∧
              (isOwned tile → isOwned tile')) ∧
  (winner g = false →
   owned <$> tiles g' !! i = (fun _ => Some (TicTacToe.marker g)) <$> tiles g !! i).
Proof.
  cbv zeta. rewrite tiles_clickTile.
  destruct (winner g) eqn:Hw.
  { split_and!; [done|done| |done]. intros j tile Hj. by exists tile. }
  unfold TicTacToe.markTile. cbn [tiles set_tiles]. split_and!.
  - apply length_alter.
  - intros j Hj. by apply list_lookup_alter_ne.
  - intros j tile Hj. destruct (decide (i = j)) as [->|Hne].
    + rewrite list_lookup_alter_eq, Hj. eexists. split_and!; [done|done|].
      intros _. unfold isOwned, TicTacToe.marker. cbn [owned].
      destruct (bool_decide (currentPlayer g = "Computer")); by vm_compute.
    + rewrite list_lookup_alter_ne by done. by exists tile.
  - intros _. rewrite list_lookup_alter_eq.
    by destruct (tiles g !! i).
Qed.

Lemma clickTile_frame_witness :
  let g := Sample.opening in
  owned <$> tiles (TicTacToe.clickTile 0 g) !! 0 =
  (fun _ => Some (TicTacToe.marker g)) <$> tiles g !! 0.
Proof.
  destruct (clickTile_frame 0 Sample.opening) as (_ & _ & _ & H).
  exact (H eq_refl).
Defined.

(** X11.  On a board whose tiles are all owned a click on any tile, or next
    to the tiles, leaves the whole state as it is: a round that fills the
    board without a winning line is never ended by a click. *)
Theorem full_board_ignores_clicks (g : Game) (i : nat) :
  Forall isOwned (tiles g) → step (TileClicked i) g = g.
Proof.
  intros Hall. cbn [step]. unfold DOMDisplay.tileListener.
  destruct (tiles g !! i) as [tile|] eqn:Hi; [|done].
  eapply Forall_lookup_1 in Hall; [|exact Hi].
  unfold isOwned in Hall. by rewrite Hall.
Qed.

Lemma full_board_ignores_clicks_witness :
  step (TileClicked 2) Sample.fullBoard = Sample.fullBoard.
Proof.
  apply (full_board_ignores_clicks Sample.fullBoard 2).
  apply (bool_decide_unpack _). vm_compute. exact I.
Defined.

Lemma getPlayableTile_some g i tile :
  tiles g !! i = Some tile → is_Some (DOMDisplay.getPlayableTile g).
Proof.
  unfold DOMDisplay.getPlayableTile. destruct (tiles g) as [|t ts]; [done|].
  intros _. cbn. destruct (truthy (owned t)); [|by eexists].
  apply playableLoop_started.
Qed.

Lemma clicked_tile_stays i g tile :
  tiles g !! i = Some tile → is_Some (tiles (TicTacToe.clickTile i g) !! i).
Proof.
  intros Hi. rewrite tiles_clickTile. destruct (winner g); [by eexists|].
  unfold TicTacToe.markTile. cbn [tiles set_tiles].
  rewrite list_lookup_alter_eq, Hi. by eexists.
Qed.

(** X12.  A click on a tile that leaves the winner flag clear leaves the
    turn with the player it was with: the listener makes the clicked move
    and then the computer's move, and each of the two switches the current
    player. *)
Theorem turn_returns_after_click (g : Game) (i : nat) :
  wellFormed g →
  winner (step (TileClicked i) g) = false →
  currentPlayer (step (TileClicked i) g) = currentPlayer g ∧
  players (step (TileClicked i) g) = players g.
Proof.
  intros Hwf. cbn [step]. unfold DOMDisplay.tileListener.
  destruct (tiles g !! i) as [tile|] eqn:Hi; [|done].
  destruct (_ || _); [done|].
  assert (is_Some (DOMDisplay.getPlayableTile (TicTacToe.clickTile i g)))
    as [j Hj].
  { destruct (clicked_tile_stays i g tile Hi) as [tile' Ht].
    by apply (getPlayableTile_some _ i tile'). }
  unfold DOMDisplay.playComputer. rewrite Hj.
  rewrite winner_clickTile, winner_clickTile.
  intros [[Hw Hm1]%orb_false_iff Hm2]%orb_false_iff.
  assert (Hw1 : winner (TicTacToe.clickTile i g) = false)
    by (by rewrite winner_clickTile, Hw, Hm1).
  destruct Hwf as (Hp & Hc & Hr).
  rewrite (clickTile_spec j), Hw1, Hm2.
  rewrite (clickTile_spec i), Hw, Hm1.
  unfold TicTacToe.switchPlayer. cbn. rewrite Hp. cbn.
  split; [|done]. destruct Hc as [-> | ->]; by vm_compute.
Qed.

Lemma turn_returns_after_click_witness :
  currentPlayer (step (TileClicked 2) Sample.opening) = currentPlayer Sample.opening ∧
  players (step (TileClicked 2) Sample.opening) = players Sample.opening.
Proof.
  apply (turn_returns_after_click Sample.opening 2); [|reflexivity].
  split; [reflexivity|]. split; [right; reflexivity|]. vm_compute. discriminate.
Defined.

(** ** Opening a round *)

Lemma selectGameMode_opens d g :
  d ≠ 0%Z → difficulty g = Some d → winner g = false →
  DOMDisplay.selectGameMode d TicTacToe.clickTile g =
  TicTacToe.switchPlayer
    (set_winner false (TicTacToe.markTile 0 (DOMDisplay.printGameBoard d g))).
Proof.
  intros Hd Hdiff Hw. unfold DOMDisplay.selectGameMode, DOMDisplay.playComputer.
  rewrite getPlayableTile_fresh by done.
  rewrite clickTile_spec, first_move_not_winning by done.
  change (winner (DOMDisplay.printGameBoard d g)) with (winner g). by rewrite Hw.
Qed.

Lemma openedBoard_marked d marker :
  d ≠ 0%Z →
  openedBoard d marker
    (alter (fun tile => mkTile (tileIndex tile) (Some marker)) 0
           (DOMDisplay.createTiles (d * d))).
Proof.
  intros Hd. unfold openedBoard. split_and!.
  - rewrite length_alter, createTiles_length. nia.
  - rewrite list_lookup_alter_eq, createTiles_cons by nia. done.
  - intros j tile Hj. rewrite list_lookup_alter_ne by lia.
    intros Hl. by rewrite (createTiles_lookup _ _ _ Hl).
Qed.

(** X13.  A click on the button of a difficulty [d] other than 0 starts a
    match: the difficulty is selected, scores are 0 to 0, the round is 1,
    the winner flag is clear, the board has the square of [d] many tiles of
    which the computer has taken the first, and the turn is the player's.
    Pending callbacks are not cancelled. *)
Theorem difficulty_click_opens_match (d : Z) (g : Game) :
  d ≠ 0%Z →
  let g' := step (DifficultyClicked d) g in
  difficulty g' = Some d ∧
  openedBoard d "X" (tiles g') ∧
  currentPlayer g' = "Player" ∧
  players g' = initialPlayers ∧
  score g' = Score.mk 0 0 ∧
  round g' = 1%Z ∧
  winner g' = false ∧
  timers g' = timers g ∧
  shown g' = shown g ++ [MessageCleared].
Proof.
  intros Hd. cbv zeta. cbn [step]. unfold TicTacToe.difficultyListener.
  rewrite selectGameMode_opens by done.
  split_and!; try done. by apply openedBoard_marked.
Qed.

Lemma difficulty_click_opens_match_witness :
  let g' := step (DifficultyClicked 4) Sample.roundWon in
  difficulty g' = Some 4%Z ∧
  openedBoard 4 "X" (tiles g') ∧
  currentPlayer g' = "Player" ∧
  players g' = initialPlayers ∧
  score g' = Score.mk 0 0 ∧
  round g' = 1%Z ∧
  winner g' = false ∧
  timers g' = timers Sample.roundWon ∧
  shown g' = shown Sample.roundWon ++ [MessageCleared].
Proof.
  apply (difficulty_click_opens_match 4 Sample.roundWon). lia.
Defined.

(** X14.  The new-game button does not cancel pending callbacks.  A
    next-round callback that fires after it advances the round of the
    fresh match to 2, although no round was played, and creates no board
    since no difficulty is selected. *)
Theorem reset_keeps_callbacks (g : Game) (k : nat) :
  timers g !! k = Some NextRound →
  let g1 := step NewGameClicked g in
  let g2 := step (TimerFired k) g1 in
  timers g1 = timers g ∧ round g1 = 1%Z ∧
  round g2 = 2%Z ∧ tiles g2 = [] ∧ difficulty g2 = None ∧
  winner g2 = false ∧ score g2 = Score.mk 0 0 ∧
  timers g2 = delete k (timers g).
Proof.
  intros Hk. cbv zeta. cbn [step].
  change (timers (TicTacToe.resetGame g)) with (timers g). rewrite Hk.
  by split_and!.
Qed.

Lemma reset_keeps_callbacks_witness :
  let g1 := step NewGameClicked Sample.roundWon in
  let g2 := step (TimerFired 1) g1 in
  timers g1 = timers Sample.roundWon ∧ round g1 = 1%Z ∧
  round g2 = 2%Z ∧ tiles g2 = [] ∧ difficulty g2 = None ∧
  winner g2 = false ∧ score g2 = Score.mk 0 0 ∧
  timers g2 = delete 1 (timers Sample.roundWon).
Proof.
  apply (reset_keeps_callbacks Sample.roundWon 1). reflexivity.
Defined.

(** X15.  The next-round callback, fired while a difficulty [d] other than
    0 is selected, clears the winner flag, adds one to the round, replaces
    the board by a fresh one of the square of [d] many tiles on which the
    current player's marker takes the first tile, and passes the turn on;
    scores are kept. *)
Theorem next_round_callback (g : Game) (k : nat) (d : Z) :
  wellFormed g →
  timers g !! k = Some NextRound → difficulty g = Some d → d ≠ 0%Z →
  let g' := step (TimerFired k) g in
  round g' = (round g + 1)%Z ∧
  winner g' = false ∧
  openedBoard d (TicTacToe.marker g) (tiles g') ∧
  currentPlayer g' = otherPlayer (currentPlayer g) ∧
  score g' = score g ∧
  timers g' = delete k (timers g).
Proof.
  intros (Hp & Hc & _) Hk Hdiff Hd. cbv zeta. cbn [step]. rewrite Hk.
  cbn [runTimer]. unfold TicTacToe.nextRound, DOMDisplay.startWithDifficulty,
    DOMDisplay.getCurrentDifficulty.
  change (difficulty (TicTacToe.roundAdvanced _)) with (difficulty g).
  rewrite Hdiff, bool_decide_eq_false_2 by done.
  rewrite selectGameMode_opens by done.
  split_and!; try done.
  - by apply openedBoard_marked.
  - unfold TicTacToe.switchPlayer, otherPlayer. cbn. rewrite Hp. cbn.
    destruct Hc as [-> | ->]; by vm_compute.
Qed.

Lemma next_round_callback_witness :
  let g := Sample.roundWon in
  let g' := step (TimerFired 1) g in
  round g' = (round g + 1)%Z ∧
  winner g' = false ∧
  openedBoard 3 (TicTacToe.marker g) (tiles g') ∧
  currentPlayer g' = otherPlayer (currentPlayer g) ∧
  score g' = score g ∧
  timers g' = delete 1 (timers g).
Proof.
  apply (next_round_callback Sample.roundWon 1 3);
    [|reflexivity|reflexivity|lia].
  split; [reflexivity|]. split; [left; reflexivity|]. vm_compute. discriminate.
Defined.

(** ** The score board *)

(** X16.  What a call of [clickTile] writes to the score board.  A winning
    move writes the round message with the round and the mover's name, then
    the mover's new score with the round number plus one, then, in the last
    round only, the outcome of the match on the new scores.  Any other call
    writes nothing. *)
Theorem outputs_after_move (i : nat) (g : Game) :
  shown (TicTacToe.clickTile i g) =
  shown g ++
  (if winningMove (i, g)
   then [RoundWinnerMessage (round g) (currentPlayer g);
         ScoreUpdated (currentPlayer g)
                      (scoreOf (currentPlayer g) (score g) + 1)%Z (round g + 1)%Z] ++
        (if bool_decide (lastRoundOf g)
         then [GameOutcome (DOMDisplay.outcomeOf (score (TicTacToe.increaseScore g)))]
         else [])
   else []).
Proof.
  rewrite shown_clickTile.
  destruct (winningMove (i, g)); [done|by rewrite app_nil_r].
Qed.

(** ** Invariants of a run *)

Lemma scoresNonNegative_clickTile i g :
  scoresNonNegative g → scoresNonNegative (TicTacToe.clickTile i g).
Proof.
  intros [Hx Ho]. unfold scoresNonNegative. rewrite score_clickTile.
  destruct (winningMove (i, g)); [|done].
  unfold TicTacToe.increaseScore. case_bool_decide; cbn; lia.
Qed.

Lemma scoresNonNegative_playComputer g :
  scoresNonNegative g →
  scoresNonNegative (DOMDisplay.playComputer TicTacToe.clickTile g).
Proof.
  intros H. unfold DOMDisplay.playComputer.
  destruct (DOMDisplay.getPlayableTile g);
    [by apply scoresNonNegative_clickTile|done].
Qed.

Lemma scoresNonNegative_step e g :
  scoresNonNegative g → scoresNonNegative (step e g).
Proof.
  intros Hs. destruct e as [i|d| |k]; cbn [step].
  - unfold DOMDisplay.tileListener.
    destruct (tiles g !! i); [|done]. destruct (_ || _); [done|].
    by apply scoresNonNegative_playComputer, scoresNonNegative_clickTile.
  - unfold TicTacToe.difficultyListener, DOMDisplay.selectGameMode.
    by apply scoresNonNegative_playComputer.
  - done.
  - destruct (timers g !! k) as [[| |]|]; cbn [runTimer]; try done.
    unfold TicTacToe.nextRound, DOMDisplay.startWithDifficulty.
    destruct (DOMDisplay.getCurrentDifficulty _); [|done].
    case_bool_decide; [done|].
    unfold DOMDisplay.selectGameMode. by apply scoresNonNegative_playComputer.
Qed.

(** X17.  Along every run from the start of the program both scores are
    natural numbers, the round is at least 1, the marker table is the
    initial one and the current player is "Computer" or "Player". *)
Theorem run_scores_and_players (es : list Event) :
  let g := run es TicTacToe.startGame in
  scoresNonNegative g ∧ wellFormed g.
Proof.
  cbv zeta. split; [|apply run_wellFormed].
  induction es as [|e es IH] using rev_ind; [done|].
  rewrite run_snoc. by apply scoresNonNegative_step.
Qed.

Lemma elem_of_delete_other {A} (l : list A) k t t' :
  l !! k = Some t' → t ≠ t' → t ∈ l → t ∈ delete k l.
Proof.
  intros Hk Hne Hin. rewrite (delete_Permutation l k t' Hk) in Hin.
  by apply elem_of_cons in Hin as [?|?].
Qed.

Lemma clearingPending_clickTile i g :
  (winner g = true → clearingPending g) →
  winner (TicTacToe.clickTile i g) = true →
  clearingPending (TicTacToe.clickTile i g).
Proof.
  unfold clearingPending. rewrite winner_clickTile, timers_clickTile.
  intros Hg Hw. destruct (winningMove (i, g)).
  - rewrite !elem_of_app. case_bool_decide; [left|right]; right;
      apply elem_of_cons; right; by left.
  - rewrite orb_false_r in Hw. auto.
Qed.

Lemma clearingPending_playComputer g :
  (winner g = true → clearingPending g) →
  winner (DOMDisplay.playComputer TicTacToe.clickTile g) = true →
  clearingPending (DOMDisplay.playComputer TicTacToe.clickTile g).
Proof.
  unfold DOMDisplay.playComputer.
  destruct (DOMDisplay.getPlayableTile g); [apply clearingPending_clickTile|auto].
Qed.

Lemma clearingPending_step e g :
  (winner g = true → clearingPending g) →
  winner (step e g) = true → clearingPending (step e g).
Proof.
  intros Hg. destruct e as [i|d| |k]; cbn [step].
  - unfold DOMDisplay.tileListener.
    destruct (tiles g !! i); [|done]. destruct (_ || _); [done|].
    apply clearingPending_playComputer. by apply clearingPending_clickTile.
  - unfold TicTacToe.difficultyListener, DOMDisplay.selectGameMode.
    apply clearingPending_playComputer. done.
  - done.
  - destruct (timers g !! k) as [[| |]|] eqn:Hk; cbn [runTimer]; try done.
    + cbn. intros Hw. destruct (Hg Hw) as [H|H]; [left|right];
        by apply (elem_of_delete_other _ _ _ HideBoard).
    + by rewrite winner_nextRound.
Qed.

(** X18.  Along every run from the start of the program, whenever the
    winner flag is set a callback that clears it (the match reset or the
    next round) is pending: moves are never blocked for good. *)
Theorem winner_flag_has_pending_callback (es : list Event) :
  let g := run es TicTacToe.startGame in
  winner g = true → clearingPending g.
Proof.
  cbv zeta. induction es as [|e es IH] using rev_ind; [done|].
  rewrite run_snoc. by apply clearingPending_step.
Qed.

Lemma winner_flag_has_pending_callback_witness :
  clearingPending
    (run [DifficultyClicked 3; TileClicked 4; TileClicked 2; TileClicked 6]
         TicTacToe.startGame).
Proof.
  apply (winner_flag_has_pending_callback
           [DifficultyClicked 3; TileClicked 4; TileClicked 2; TileClicked 6]).
  vm_compute. reflexivity.
Defined.

(** ** Who wins *)

Section Marking.
Variables (ts : list Tile) (i : nat) (m : string).
Hypothesis ts_numbered : numbered ts.

Lemma marked_numbered : numbered (markedWith m i ts).
Proof. by apply numbered_alter. Qed.

(** Marking a tile with [m] gives no tile to another marker. *)
Lemma marked_other w a :
  w ≠ m →
  a ∈ omap (indexIfOwnedBy w) (markedWith m i ts) → a ∈ omap (indexIfOwnedBy w) ts.
Proof.
  intros Hne. rewrite !numbered_index by (done || apply marked_numbered).
  intros [Ha Hl]. split; [done|]. unfold markedWith in Hl.
  destruct (decide (i = Z.to_nat a)) as [->|Hi].
  - rewrite list_lookup_alter_eq in Hl.
    destruct (ts !! Z.to_nat a); [|done]. cbn in Hl. congruence.
  - by rewrite list_lookup_alter_ne in Hl.
Qed.

(** Marking a tile with [m] takes no tile away from [m]. *)
Lemma marked_same a :
  a ∈ omap (indexIfOwnedBy m) ts → a ∈ omap (indexIfOwnedBy m) (markedWith m i ts).
Proof.
  rewrite !numbered_index by (done || apply marked_numbered).
  intros [Ha Hl]. split; [done|]. unfold markedWith.
  destruct (decide (i = Z.to_nat a)) as [->|Hi].
  - rewrite list_lookup_alter_eq. by destruct (ts !! Z.to_nat a).
  - by rewrite list_lookup_alter_ne.
Qed.

(** A line another marker owns after the marking was owned by it before. *)
Lemma marked_other_line w arr :
  w ≠ m →
  ownsLine (omap (indexIfOwnedBy w) (markedWith m i ts))
           (omap (indexIfOwnedBy m) (markedWith m i ts)) arr →
  ownsLine (omap (indexIfOwnedBy w) ts) (omap (indexIfOwnedBy m) ts) arr.
Proof.
  intros Hne Hown. unfold ownsLine in *. eapply Forall_impl; [exact Hown|].
  intros a [Hin Hout]. split.
  - by apply marked_other.
  - intros Hm. by apply Hout, marked_same.
Qed.
End Marking.

Lemma xTiles_omap g : xTiles g = omap (indexIfOwnedBy "X") (tiles g).
Proof. unfold xTiles. by rewrite ownedTiles_omap. Qed.

Lemma oTiles_omap g : oTiles g = omap (indexIfOwnedBy "O") (tiles g).
Proof. unfold oTiles. by rewrite ownedTiles_omap. Qed.

Lemma winner_owns_line i g :
  soundBoard g → winningMove (i, g) = true →
  hasWinningLine (default 0%Z (DOMDisplay.getCurrentDifficulty g))
                 (currentPlayer g) (TicTacToe.markTile i g).
Proof.
  intros [(Hn & _ & _) Hline] Hm.
  pose proof (winningMove_accepted _ _ Hm) as Hw. specialize (Hline Hw).
  unfold winningMove in Hm. rewrite Hw in Hm. cbn [negb andb] in Hm.
  unfold TicTacToe.checkWinner in Hm.
  change (DOMDisplay.getCurrentDifficulty (TicTacToe.markTile i g))
    with (DOMDisplay.getCurrentDifficulty g) in Hm.
  apply checkWinner_true_iff in Hm as (arr & Hin & Hown).
  exists arr. split; [done|].
  assert (Hgoal : ownsLine (tilesOf (currentPlayer g) (TicTacToe.markTile i g))
                    (tilesOf (otherPlayer (currentPlayer g)) (TicTacToe.markTile i g))
                    arr).
  { unfold tilesOf, otherPlayer.
    rewrite xTiles_omap, oTiles_omap in Hown, Hline |- *.
    unfold TicTacToe.markTile, TicTacToe.marker in *. cbn [tiles set_tiles] in *.
    fold (markedWith (if bool_decide (currentPlayer g = "Computer") then "X" else "O")
            i (tiles g)) in *.
    destruct (bool_decide (currentPlayer g = "Computer")) eqn:Hc.
    - rewrite bool_decide_eq_false_2 by done.
      destruct Hown as [Hown|Hown]; [done|exfalso].
      apply marked_other_line in Hown; [|done..].
      by destruct (winningLine_None _ _ _ arr Hline Hin).
    - rewrite bool_decide_eq_true_2 by done.
      destruct Hown as [Hown|Hown]; [exfalso|done].
      apply marked_other_line in Hown; [|done..].
      by destruct (winningLine_None _ _ _ arr Hline Hin). }
  unfold ownsLine in Hgoal. rewrite Forall_forall in Hgoal.
  intros a Ha. by destruct (Hgoal a Ha).
Qed.

Lemma soundBoard_clickTile i g : soundBoard g → soundBoard (TicTacToe.clickTile i g).
Proof.
  intros [Hb Hline]. split; [by apply boardInvariant_clickTile|].
  unfold noUnnoticedLine. rewrite winner_clickTile.
  intros [Hw Hm]%orb_false_iff.
  rewrite clickTile_spec, Hw, Hm.
  unfold winningMove in Hm. rewrite Hw in Hm. cbn [negb andb] in Hm.
  unfold TicTacToe.checkWinner in Hm. rewrite checkWinner_unfold in Hm.
  change (DOMDisplay.getCurrentDifficulty (TicTacToe.markTile i g))
    with (DOMDisplay.getCurrentDifficulty g) in Hm.
  change (DOMDisplay.winningLine
            (xTiles (TicTacToe.markTile i g)) (oTiles (TicTacToe.markTile i g))
            (DOMDisplay.gameWin (default 0%Z (DOMDisplay.getCurrentDifficulty g)))
          = None).
  by destruct (DOMDisplay.winningLine _ _ _).
Qed.

Lemma soundBoard_unowned g :
  boardInvariant g → Forall (fun tile => ¬ isOwned tile) (tiles g) → soundBoard g.
Proof. intros Hb Hfree. split; [done|]. intros _. by apply winningLine_unowned. Qed.

Lemma soundBoard_empty g : tiles g = [] → soundBoard g.
Proof.
  intros Ht. apply soundBoard_unowned; [by apply boardInvariant_empty|].
  rewrite Ht. constructor.
Qed.

Lemma soundBoard_printGameBoard d g :
  difficulty g = Some d → soundBoard (DOMDisplay.printGameBoard d g).
Proof.
  intros Hd. apply soundBoard_unowned; [by apply boardInvariant_printGameBoard|].
  pose proof (fresh_tiles_unowned d g) as Hf.
  eapply Forall_impl; [exact Hf|]. intros tile Ho. unfold isOwned. by rewrite Ho.
Qed.

Lemma soundBoard_playComputer g :
  soundBoard g → soundBoard (DOMDisplay.playComputer TicTacToe.clickTile g).
Proof.
  intros H. unfold DOMDisplay.playComputer.
  destruct (DOMDisplay.getPlayableTile g); [by apply soundBoard_clickTile|done].
Qed.

Lemma boardInvariant_no_difficulty g :
  boardInvariant g → difficulty g = None ∨ difficulty g = Some 0%Z →
  tiles g = [].
Proof.
  intros (_ & _ & [Ht|(d & Hd & Hl)]) Hnone; [done|].
  destruct Hnone as [H|H]; rewrite H in Hd; [done|].
  injection Hd as <-. destruct (tiles g); [done|cbn in Hl; lia].
Qed.

Lemma soundBoard_nextRound g :
  soundBoard g → soundBoard (TicTacToe.nextRound g).
Proof.
  intros [Hb _]. unfold TicTacToe.nextRound, DOMDisplay.startWithDifficulty,
    DOMDisplay.getCurrentDifficulty.
  destruct (difficulty (TicTacToe.roundAdvanced g)) as [d|] eqn:Hd.
  - case_bool_decide as H0.
    + subst d. apply soundBoard_empty.
      apply (boardInvariant_no_difficulty g Hb). by right.
    + unfold DOMDisplay.selectGameMode.
      by apply soundBoard_playComputer, soundBoard_printGameBoard.
  - apply soundBoard_empty. apply (boardInvariant_no_difficulty g Hb). by left.
Qed.

Lemma soundBoard_timers ts g : soundBoard g → soundBoard (set_timers ts g).
Proof. done. Qed.

Lemma soundBoard_step e g : soundBoard g → soundBoard (step e g).
Proof.
  intros Hs. destruct e as [i|d| |k]; cbn [step].
  - unfold DOMDisplay.tileListener.
    destruct (tiles g !! i); [|done]. destruct (_ || _); [done|].
    by apply soundBoard_playComputer, soundBoard_clickTile.
  - unfold TicTacToe.difficultyListener, DOMDisplay.selectGameMode.
    by apply soundBoard_playComputer, soundBoard_printGameBoard.
  - by apply soundBoard_empty.
  - destruct (timers g !! k) as [[| |]|]; cbn [runTimer]; try done.
    + by apply soundBoard_empty.
    + by apply soundBoard_empty.
    + by apply soundBoard_nextRound, soundBoard_timers.
Qed.

Lemma run_soundBoard es : soundBoard (run es TicTacToe.startGame).
Proof.
  induction es as [|e es IH] using rev_ind; [by apply soundBoard_empty|].
  rewrite run_snoc. by apply soundBoard_step.
Qed.

Lemma soundBoard_computerMove g m :
  soundBoard g → m ∈ computerMove g → soundBoard m.2.
Proof.
  intros Hs. unfold computerMove.
  destruct (DOMDisplay.getPlayableTile g); [|by intros ?%elem_of_nil].
  by intros ->%list_elem_of_singleton.
Qed.

(** Every move of an event is made on a sound board. *)
Lemma soundBoard_moves e g m : soundBoard g → m ∈ moves e g → soundBoard m.2.
Proof.
  intros Hs. destruct e as [i|d| |k]; cbn [moves].
  - destruct (tiles g !! i); [|by intros ?%elem_of_nil].
    destruct (_ || _); [by intros ?%elem_of_nil|].
    intros [->|Hin]%elem_of_cons; [done|].
    eapply soundBoard_computerMove; [|exact Hin]. by apply soundBoard_clickTile.
  - apply soundBoard_computerMove. by apply soundBoard_printGameBoard.
  - by intros ?%elem_of_nil.
  - destruct (timers g !! k) as [[| |]|]; try by intros ?%elem_of_nil.
    cbv zeta. unfold DOMDisplay.getCurrentDifficulty.
    destruct (difficulty _) as [d|] eqn:Hd; [|by intros ?%elem_of_nil].
    case_bool_decide; [by intros ?%elem_of_nil|].
    apply soundBoard_computerMove. by apply soundBoard_printGameBoard.
Qed.

(** X19.  Along every run from the start of the program no completed line
    goes unnoticed: whenever the winner flag is clear, the win check at the
    selected difficulty finds no line on the board. *)
Theorem run_hides_no_line (es : list Event) (p : string) (r : Z) :
  let g := run es TicTacToe.startGame in
  winner g = false →
  DOMDisplay.checkWinner (default 0%Z (DOMDisplay.getCurrentDifficulty g)) p r g
  = (false, g).
Proof.
  cbv zeta. intros Hw. destruct (run_soundBoard es) as [_ Hline].
  by rewrite checkWinner_unfold, (Hline Hw).
Qed.

Lemma run_hides_no_line_witness :
  let g := run [DifficultyClicked 3; TileClicked 4; TileClicked 2] TicTacToe.startGame in
  DOMDisplay.checkWinner (default 0%Z (DOMDisplay.getCurrentDifficulty g)) "Player" 1 g
  = (false, g).
Proof.
  apply (run_hides_no_line [DifficultyClicked 3; TileClicked 4; TileClicked 2]
                           "Player" 1).
  vm_compute. reflexivity.
Defined.

(** X20.  In every run from the start of the program, a winning move is won
    by the player who makes it: after the marking, some line of the table of
    the selected difficulty has every index in that player's set.  So the
    name the round message carries is the name of the owner of a line. *)
Theorem winning_move_owns_a_line (es : list Event) (e : Event) (i : nat) (s : Game) :
  (i, s) ∈ moves e (run es TicTacToe.startGame) →
  winningMove (i, s) = true →
  hasWinningLine (default 0%Z (DOMDisplay.getCurrentDifficulty s))
                 (currentPlayer s) (TicTacToe.markTile i s).
Proof.
  intros Hin Hm. apply winner_owns_line; [|done].
  apply (soundBoard_moves e _ (i, s) (run_soundBoard es) Hin).
Qed.

Lemma winning_move_owns_a_line_witness :
  let s := run [DifficultyClicked 3; TileClicked 4; TileClicked 2] TicTacToe.startGame in
  hasWinningLine (default 0%Z (DOMDisplay.getCurrentDifficulty s))
                 (currentPlayer s) (TicTacToe.markTile 6 s).
Proof.
  apply (winning_move_owns_a_line
           [DifficultyClicked 3; TileClicked 4; TileClicked 2] (TileClicked 6) 6).
  - assert (Hl : tiles (run [DifficultyClicked 3; TileClicked 4; TileClicked 2]
                            TicTacToe.startGame) !! 6
                 = Some (mkTile (Some 7%Z) None)) by (vm_compute; reflexivity).
    cbn [moves]. rewrite Hl. apply list_elem_of_here.
  - vm_compute. reflexivity.
Defined.

(** ** From one round to the next *)

Lemma currentPlayer_after_round i g :
  winningMove (i, g) = true → ¬ lastRoundOf g →
  currentPlayer (TicTacToe.clickTile i g) = "Computer" ∧
  players (TicTacToe.clickTile i g) = initialPlayers.
Proof.
  intros Hm Hl. rewrite clickTile_spec, (winningMove_accepted _ _ Hm), Hm.
  cbv zeta. unfold lastRoundOf in Hl. by rewrite bool_decide_eq_false_2.
Qed.

(** X21.  A round that is not the last, won with no other callback pending:
    the hide-board callback empties the board and leaves the winner flag
    set; the next-round callback then clears the flag, advances the round
    by one and opens a fresh board of the same difficulty with the
    computer's move on the first tile, the turn being the player's and the
    scores those after the win. *)
Theorem round_lifecycle (i : nat) (g : Game) (d : Z) :
  (1 ≤ round g)%Z → difficulty g = Some d → timers g = [] →
  winningMove (i, g) = true → ¬ lastRoundOf g →
  let g1 := TicTacToe.clickTile i g in
  let g2 := step (TimerFired 0) g1 in
  let g3 := step (TimerFired 0) g2 in
  tiles g2 = [] ∧ winner g2 = true ∧
  round g3 = (round g + 1)%Z ∧ winner g3 = false ∧
  openedBoard d "X" (tiles g3) ∧
  currentPlayer g3 = "Player" ∧
  score g3 = score (TicTacToe.increaseScore g) ∧
  difficulty g3 = Some d ∧
  timers g3 = [].
Proof.
  intros Hr Hd Ht Hm Hl. cbv zeta.
  assert (Hd0 : d ≠ 0%Z).
  { unfold lastRoundOf, DOMDisplay.getCurrentDifficulty in Hl.
    rewrite Hd in Hl. cbn in Hl. lia. }
  destruct (currentPlayer_after_round i g Hm Hl) as [Hc Hp].
  assert (Ht1 : timers (TicTacToe.clickTile i g) = [HideBoard; NextRound]).
  { rewrite timers_clickTile, Hm, Ht. unfold lastRoundOf in Hl.
    by rewrite bool_decide_eq_false_2. }
  assert (Hw1 : winner (TicTacToe.clickTile i g) = true)
    by (by rewrite winner_clickTile, Hm, orb_true_r).
  assert (Hd1 : difficulty (TicTacToe.clickTile i g) = Some d)
    by (by rewrite difficulty_clickTile).
  assert (Hs1 : score (TicTacToe.clickTile i g) = score (TicTacToe.increaseScore g))
    by (by rewrite score_clickTile, Hm).
  pose proof (round_clickTile i g) as Hr1.
  set (g1 := TicTacToe.clickTile i g) in *.
  cbn [step]. rewrite Ht1. cbn [lookup list_lookup runTimer delete list_delete].
  cbn [step timers set_tiles set_timers lookup list_lookup runTimer delete
       list_delete].
  unfold TicTacToe.nextRound, DOMDisplay.startWithDifficulty,
    DOMDisplay.getCurrentDifficulty.
  cbn [difficulty TicTacToe.roundAdvanced set_round set_winner set_tiles
       set_timers].
  rewrite Hd1, bool_decide_eq_false_2 by done.
  rewrite selectGameMode_opens by done.
  unfold TicTacToe.switchPlayer, TicTacToe.markTile, TicTacToe.marker,
    DOMDisplay.printGameBoard.
  cbn. rewrite Hc, Hp. cbn.
  split_and!; try done; [lia|]. by apply openedBoard_marked.
Qed.

Lemma round_lifecycle_witness :
  let g := Sample.playerToWin in
  let g1 := TicTacToe.clickTile 6 g in
  let g2 := step (TimerFired 0) g1 in
  let g3 := step (TimerFired 0) g2 in
  tiles g2 = [] ∧ winner g2 = true ∧
  round g3 = (round g + 1)%Z ∧ winner g3 = false ∧
  openedBoard 3 "X" (tiles g3) ∧
  currentPlayer g3 = "Player" ∧
  score g3 = score (TicTacToe.increaseScore g) ∧
  difficulty g3 = Some 3%Z ∧
  timers g3 = [].
Proof.
  apply (round_lifecycle 6 Sample.playerToWin 3);
    [vm_compute; discriminate | reflexivity | reflexivity | reflexivity |].
  unfold lastRoundOf. vm_compute. intros H. discriminate H.
Defined.

(** X22.  The last round, won with no other callback pending: after the
    hide-board callback and the match-reset callback the program is back
    where [startGame] leaves it, but for what was written to the score
    board: no tiles, no difficulty selected, scores 0 to 0, round 1, winner
    flag clear, the computer to move, nothing pending. *)
Theorem match_lifecycle (i : nat) (g : Game) :
  timers g = [] → winningMove (i, g) = true → lastRoundOf g →
  let g1 := TicTacToe.clickTile i g in
  let g3 := step (TimerFired 0) (step (TimerFired 0) g1) in
  set_shown (shown TicTacToe.startGame) g3 = TicTacToe.startGame ∧
  shown g3 = shown g1 ++ [MessageCleared].
Proof.
  intros Ht Hm Hl. cbv zeta.
  assert (Ht1 : timers (TicTacToe.clickTile i g) = [HideBoard; ResetMatch]).
  { rewrite timers_clickTile, Hm, Ht. unfold lastRoundOf in Hl.
    by rewrite bool_decide_eq_true_2. }
  set (g1 := TicTacToe.clickTile i g) in *.
  cbn [step]. rewrite Ht1. cbn [lookup list_lookup runTimer delete list_delete].
  cbn [step timers set_tiles set_timers lookup list_lookup runTimer delete
       list_delete].
  done.
Qed.

Lemma match_lifecycle_witness :
  let g1 := TicTacToe.clickTile 6 Sample.lastRound in
  let g3 := step (TimerFired 0) (step (TimerFired 0) g1) in
  set_shown (shown TicTacToe.startGame) g3 = TicTacToe.startGame ∧
  shown g3 = shown g1 ++ [MessageCleared].
Proof.
  apply (match_lifecycle 6 Sample.lastRound); [reflexivity | reflexivity |].
  unfold lastRoundOf. vm_compute. reflexivity.
Defined.

(** ** Blocked moves *)

Lemma difficultyListener_opens d g :
  winner (TicTacToe.difficultyListener d g) = false ∧
  timers (TicTacToe.difficultyListener d g) = timers g.
Proof.
  unfold TicTacToe.difficultyListener.
  destruct (decide (d = 0%Z)) as [->|Hd].
  - done.
  - by rewrite selectGameMode_opens.
Qed.

Lemma run_clearingPending es :
  winner (run es TicTacToe.startGame) = true →
  clearingPending (run es TicTacToe.startGame).
Proof.
  induction es as [|e es IH] using rev_ind; [done|].
  rewrite run_snoc. by apply clearingPending_step.
Qed.

(** While the flag is set, it is cleared by exactly the events of
    [clearsFlag]: tile clicks and the hide-board callback leave it set. *)
Lemma winner_cleared_by e g :
  winner g = true → winner (step e g) = false ↔ clearsFlag e g.
Proof.
  intros Hw. destruct e as [i|d| |k]; cbn [step clearsFlag].
  - rewrite tileListener_blocked, Hw by done. done.
  - by destruct (difficultyListener_opens d g) as [-> _].
  - done.
  - destruct (timers g !! k) as [[| |]|]; cbn [runTimer].
    + cbn. rewrite Hw. split; [done|]. by intros [?|?].
    + split; [by left|done].
    + rewrite winner_nextRound. split; [by right|done].
    + rewrite Hw. split; [done|]. by intros [?|?].
Qed.

(** C8, as stated, fails: a deferred transition can be pending while moves
    are accepted.  After a round is won, a click on a difficulty button
    clears the winner flag and leaves the two callbacks of the won round
    pending; the next click on a tile is then a move like any other. *)
Lemma move_accepted_while_callback_pending :
  let g := step (DifficultyClicked 3) Sample.roundWon in
  winner Sample.roundWon = true ∧
  timers g = [HideBoard; NextRound] ∧
  clearingPending g ∧
  winner g = false ∧
  owned <$> tiles g !! 4 = Some None ∧
  owned <$> tiles (TicTacToe.clickTile 4 g) !! 4 = Some (Some "O") ∧
  TicTacToe.clickTile 4 g ≠ g ∧
  step (TileClicked 4) g ≠ g.
Proof.
  cbv zeta.
  assert (Ht : timers (step (DifficultyClicked 3) Sample.roundWon)
               = [HideBoard; NextRound]) by (vm_compute; reflexivity).
  split_and!.
  - vm_compute. reflexivity.
  - exact Ht.
  - right. rewrite Ht. apply list_elem_of_further, list_elem_of_here.
  - vm_compute. reflexivity.
  - vm_compute. reflexivity.
  - vm_compute. reflexivity.
  - intros H. apply (f_equal currentPlayer) in H. vm_compute in H. discriminate H.
  - intros H. apply (f_equal tiles) in H. vm_compute in H. discriminate H.
Qed.

(** C8, amended.  In every run from the start of the program, while the
    winner flag is set a call of [clickTile] changes nothing, whether it
    comes from a click on a tile or from the computer's turn, and a callback
    that clears the flag (match reset or next round) is pending.  The flag
    stays set through tile clicks and the hide-board callback; it is cleared
    by the firing of the match-reset or next-round callback, and also by the
    new-game button and by a click on a difficulty button, neither of which
    cancels the pending callbacks.  So moves are blocked as long as the flag
    is set, not as long as a deferred transition is pending. *)
Theorem moves_blocked_while_flag_set (es : list Event) (e : Event) (i : nat) :
  let g := run es TicTacToe.startGame in
  winner g = true →
  TicTacToe.clickTile i g = g ∧
  DOMDisplay.playComputer TicTacToe.clickTile g = g ∧
  step (TileClicked i) g = g ∧
  clearingPending g ∧
  (winner (step e g) = false ↔ clearsFlag e g) ∧
  (e = NewGameClicked ∨ (∃ d, e = DifficultyClicked d) →
   winner (step e g) = false ∧ timers (step e g) = timers g ∧
   clearingPending (step e g)).
Proof.
  cbv zeta. intros Hw.
  pose proof (run_clearingPending es Hw) as Hp.
  split_and!.
  - by apply clickTile_blocked.
  - by apply playComputer_blocked.
  - by apply tileListener_blocked.
  - done.
  - by apply winner_cleared_by.
  - intros [-> | [d ->]]; cbn [step].
    + done.
    + destruct (difficultyListener_opens d (run es TicTacToe.startGame))
        as [Hw' Ht'].
      split_and!; [done|done|]. unfold clearingPending. by rewrite Ht'.
Qed.

Lemma moves_blocked_while_flag_set_witness :
  let g := run [DifficultyClicked 3; TileClicked 4; TileClicked 2; TileClicked 6]
               TicTacToe.startGame in
  TicTacToe.clickTile 5 g = g ∧
  DOMDisplay.playComputer TicTacToe.clickTile g = g ∧
  step (TileClicked 5) g = g ∧
  clearingPending g ∧
  (winner (step (DifficultyClicked 3) g) = false ↔
   clearsFlag (DifficultyClicked 3) g) ∧
  (DifficultyClicked 3 = NewGameClicked ∨
   (∃ d, DifficultyClicked 3 = DifficultyClicked d) →
   winner (step (DifficultyClicked 3) g) = false ∧
   timers (step (DifficultyClicked 3) g) = timers g ∧
   clearingPending (step (DifficultyClicked 3) g)).
Proof.
  apply (moves_blocked_while_flag_set
           [DifficultyClicked 3; TileClicked 4; TileClicked 2; TileClicked 6]
           (DifficultyClicked 3) 5).
  vm_compute. reflexivity.
Defined.
